(** * snakePipes [common_functions.py]: sample naming, pairing detection and
      configuration dictionaries.

    A shallow embedding of the pure helpers of
    [snakePipes/common_functions.py] together with the properties that the
    repository's specification states about them.

    Conventions of the embedding:
    - a Python [str] is a [string] (characters with codes 0 to 255, compared
      by their code);
    - a Python [dict] with string keys is a [gmap]; a Python [set] is a [gset];
    - a Python call that may raise returns a [result]; a [for] loop that
      updates local state is [for_each];
    - [os.path.basename] is the POSIX one. *)

From Stdlib Require Import Ascii.
From stdpp Require Import base option list sorting gmap strings fin_maps.

(** ** Outcomes of a Python call *)

Inductive exn : Set :=
| IndexError   (* a sequence index out of range *)
| ReError.     (* [re.error]: the pattern does not compile *)

(** [NotModelled] marks an execution that leaves the part of the [re] pattern
    language formalised below; no statement is made about such executions. *)
Inductive result (A : Type) : Type :=
| Ok (a : A)
| Raise (e : exn)
| NotModelled.
Arguments Ok {A} a.
Arguments Raise {A} e.
Arguments NotModelled {A}.

Global Instance result_bind : MBind result := λ A B k m,
  match m with
  | Ok a => k a
  | Raise e => Raise e
  | NotModelled => NotModelled
  end.

(** [try: body except IndexError: handler] *)
Definition try_except_IndexError {A} (body handler : result A) : result A :=
  match body with
  | Raise IndexError => handler
  | r => r
  end.

(** [l[i]] for a non-negative constant [i]. *)
Definition py_index {A} (l : list A) (i : nat) : result A :=
  match l !! i with
  | Some x => Ok x
  | None => Raise IndexError
  end.

(** [for x in xs: st = body x st], stopping at the first exception. *)
Fixpoint for_each {A S} (xs : list A) (body : A → S → result S) (st : S)
  : result S :=
  match xs with
  | [] => Ok st
  | x :: xs' => st' ← body x st; for_each xs' body st'
  end.

(** ** Strings *)

Definition slash : ascii := "/"%char.

(** [os.path.basename] (posixpath): what follows the last slash. *)
Fixpoint has_slash (p : string) : bool :=
  match p with
  | "" => false
  | String c p' => Ascii.eqb c slash || has_slash p'
  end.

Fixpoint basename (p : string) : string :=
  match p with
  | "" => ""
  | String c p' => if Ascii.eqb c slash || has_slash p' then basename p' else p
  end.

(** [str.replace(old, new)] for a non-empty [old]: scan from the left; at an
    occurrence of [old] emit [new] and jump over the occurrence ([skip] counts
    the characters of it still to jump), otherwise copy one character. *)
Fixpoint replace_scan (old new : string) (skip : nat) (s : string) : string :=
  match s with
  | "" => ""
  | String c s' =>
      match skip with
      | S k => replace_scan old new k s'
      | 0 => if String.prefix old s
             then new +:+ replace_scan old new (String.length old - 1) s'
             else String c (replace_scan old new 0 s')
      end
  end.

(** [str.replace("", new)]: [new] is put before every character and at the
    end. *)
Fixpoint replace_empty (new : string) (s : string) : string :=
  match s with
  | "" => new
  | String c s' => new +:+ String c (replace_empty new s')
  end.

Definition py_replace (old new s : string) : string :=
  match old with
  | "" => replace_empty new s
  | _ => replace_scan old new 0 s
  end.

(** [sorted] on strings. *)
Definition sorted (l : list string) : list string := merge_sort String.le l.

(** ** [get_sample_names] *)

(** The first statement of the loop body: the file name without [ext]. *)
Definition strip_ext (x ext : string) : string :=
  py_replace ext "" (basename x).

(** The [try] block: both read suffixes are removed, unless [reads] is too
    short, in which case [x] keeps its value. *)
Definition strip_reads (x : string) (reads : list string) : result string :=
  try_except_IndexError
    (r0 ← py_index reads 0;
     let x0 := py_replace r0 "" x in
     r1 ← py_index reads 1;
     Ok (py_replace r1 "" x0))
    (Ok x).

Definition sample_name (x ext : string) (reads : list string) : result string :=
  strip_reads (strip_ext x ext) reads.

(** [set_iter] is the order in which [list(set(s))] enumerates the set; Python
    leaves it unspecified. *)
Definition get_sample_names_iter (set_iter : gset string → list string)
    (infiles : list string) (ext : string) (reads : list string)
  : result (list string) :=
  s ← for_each infiles
        (λ x s, x ← sample_name x ext reads; Ok (s ++ [x])) [];
  Ok (sorted (set_iter (list_to_set s))).

Definition get_sample_names := get_sample_names_iter elements.

(** ** Configuration dictionaries *)

Section Config.
Context {V : Type}.
(** [v1 != v2] on configuration values. *)
Variable py_ne : V → V → bool.
(** ["{}".format(v)] *)
Variable format : V → string.

Definition unwanted_keys : list string := ["maindir"; "workflow"].

(** The argument is the value [yaml.load] produced: a mapping, or [None]
    for an empty document. A dictionary is true when it is not empty. *)
Definition sanity_dict_clean (myDict : option (gmap string V))
  : option (gmap string V) :=
  foldl (λ myDict k,
           match myDict with
           | Some d => if bool_decide (d ≠ ∅) && bool_decide (is_Some (d !! k))
                       then Some (delete k d) else Some d
           | None => None
           end)
        myDict unwanted_keys.

Definition dashes (n : nat) : string :=
  String.string_of_list_ascii (replicate n "-"%char).

(** [load_configfile] applied to a file whose YAML content is the mapping
    [parsed]; the result is the returned dictionary and the lines printed. *)
Definition load_configfile (configfile : string) (parsed : gmap string V)
    (verbose : bool) (info : string) : option (gmap string V) * list string :=
  let config := sanity_dict_clean (Some parsed) in
  let printed :=
    if verbose then
      [String "010" "--- " +:+ info +:+ " " +:+ dashes 69;
       "config file: " +:+ configfile]
      ++ ((λ kv, kv.1 +:+ ": " +:+ format kv.2) <$>
            merge_sort (λ kv1 kv2 : string * V, String.le kv1.1 kv2.1)
                       (map_to_list (default ∅ config)))
      ++ [dashes 80 +:+ " " +:+ String "010" ""]
    else [] in
  (config, printed).

(** [for k in dict1] visits every key of [dict1] once. *)
Definition config_diff (dict1 dict2 : gmap string V) : gmap string V :=
  map_fold (λ k v diff,
              match dict2 !! k with
              | Some v2 => if py_ne v v2 then <[k := v]> diff else diff
              | None => <[k := v]> diff
              end)
           ∅ dict1.
End Config.

(** ** A fragment of Python's [re]

    The pattern of [is_paired] is assembled from the read suffixes, so the
    suffixes are read as regular expressions. The fragment below covers
    literal characters, [.], [^], [$], [|], capturing groups, and the greedy
    [*], [+], [?] applied to a single character or to [.]. Everything else
    ([\ ], [[ ], [{ ], [(?], a quantifier after a group or after another
    quantifier) is [NotModelled]. *)

Inductive atom : Set :=
| AChar (c : ascii)    (* the character itself *)
| AAny.                (* [.]: any character but a newline *)

Inductive quant : Set := QOne | QStar | QPlus | QOpt.

Inductive regex : Set :=
| REmpty
| RAtom (a : atom) (q : quant)
| RBol                            (* [^] *)
| REol                            (* [$] *)
| RGroup (i : nat) (r : regex)    (* the [i]-th capturing group *)
| RCat (r1 r2 : regex)
| RAlt (r1 r2 : regex).

Definition newline : ascii := "010"%char.

Fixpoint seq_of (items : list regex) : regex :=
  match items with
  | [] => REmpty
  | r :: items' => RCat r (seq_of items')
  end.

Fixpoint alt_of (branch : regex) (branches : list regex) : regex :=
  match branches with
  | [] => branch
  | b :: branches' => RAlt branch (alt_of b branches')
  end.

(** The branches read so far (latest first) and the items of the branch
    being read (latest first) become one expression. *)
Definition close (alts items : list regex) : regex :=
  match rev (seq_of (rev items) :: alts) with
  | [] => REmpty
  | b :: bs => alt_of b bs
  end.

(** A quantifier character applies to the last item of the current branch. *)
Definition repeat_last (q : quant) (items : list regex)
  : result (list regex) :=
  match items with
  | [] => Raise ReError                              (* nothing to repeat *)
  | RAtom a QOne :: items' => Ok (RAtom a q :: items')
  | RBol :: _ | REol :: _ => Raise ReError           (* nothing to repeat *)
  | _ => NotModelled
  end.

(** One frame per group still open: its number, and the branches and items
    of the enclosing expression. *)
Definition frame : Set := nat * list regex * list regex.

Fixpoint parse_from (s : string) (next : nat) (alts items : list regex)
    (stack : list frame) : result regex :=
  match s with
  | "" => match stack with
          | [] => Ok (close alts items)
          | _ :: _ => Raise ReError          (* missing ), unterminated *)
          end
  | String c s' =>
      match c with
      | "("%char =>
          match s' with
          | String "?"%char _ => NotModelled
          | _ => parse_from s' (S next) [] [] ((next, alts, items) :: stack)
          end
      | ")"%char =>
          match stack with
          | [] => Raise ReError              (* unbalanced parenthesis *)
          | (i, alts0, items0) :: stack' =>
              parse_from s' next alts0
                         (RGroup i (close alts items) :: items0) stack'
          end
      | "|"%char => parse_from s' next (seq_of (rev items) :: alts) [] stack
      | "^"%char => parse_from s' next alts (RBol :: items) stack
      | "$"%char => parse_from s' next alts (REol :: items) stack
      | "."%char => parse_from s' next alts (RAtom AAny QOne :: items) stack
      | "*"%char => items' ← repeat_last QStar items;
                    parse_from s' next alts items' stack
      | "+"%char => items' ← repeat_last QPlus items;
                    parse_from s' next alts items' stack
      | "?"%char => items' ← repeat_last QOpt items;
                    parse_from s' next alts items' stack
      | "\"%char | "["%char | "{"%char => NotModelled
      | _ => parse_from s' next alts (RAtom (AChar c) QOne :: items) stack
      end
  end.

(** [re.compile] *)
Definition parse (pattern : string) : result regex :=
  parse_from pattern 1 [] [] [].

(** The groups that took part in a match, with the text they captured. *)
Abbreviation captures := (gmap nat string).

(** What remains to be matched: position, rest of the subject, captures. *)
Definition cont : Type := nat → string → captures → option captures.

Definition atom_matches (a : atom) (c : ascii) : bool :=
  match a with
  | AChar c' => Ascii.eqb c' c
  | AAny => negb (Ascii.eqb c newline)
  end.

(** Greedy repetition: as many characters as possible first. *)
Fixpoint match_star (a : atom) (pos : nat) (s : string) (caps : captures)
    (k : cont) : option captures :=
  match s with
  | String c s' =>
      if atom_matches a c then
        match match_star a (S pos) s' caps k with
        | Some m => Some m
        | None => k pos s caps
        end
      else k pos s caps
  | "" => k pos s caps
  end.

Definition match_atom (a : atom) (q : quant) (pos : nat) (s : string)
    (caps : captures) (k : cont) : option captures :=
  match q, s with
  | QStar, _ => match_star a pos s caps k
  | QOne, String c s' => if atom_matches a c then k (S pos) s' caps else None
  | QOne, "" => None
  | QPlus, String c s' =>
      if atom_matches a c then match_star a (S pos) s' caps k else None
  | QPlus, "" => None
  | QOpt, String c s' =>
      if atom_matches a c then
        match k (S pos) s' caps with
        | Some m => Some m
        | None => k pos s caps
        end
      else k pos s caps
  | QOpt, "" => k pos s caps
  end.

(** [$] holds at the end and before a newline that ends the subject. *)
Definition at_end (s : string) : bool :=
  match s with
  | "" => true
  | String c "" => Ascii.eqb c newline
  | _ => false
  end.

(** Backtracking matcher; alternatives are tried from left to right. *)
Fixpoint rmatch (r : regex) (pos : nat) (s : string) (caps : captures)
    (k : cont) : option captures :=
  match r with
  | REmpty => k pos s caps
  | RAtom a q => match_atom a q pos s caps k
  | RBol => if decide (pos = 0) then k pos s caps else None
  | REol => if at_end s then k pos s caps else None
  | RGroup i r' =>
      rmatch r' pos s caps
             (λ pos' s' caps',
                k pos' s' (<[i := String.substring 0 (pos' - pos) s]> caps'))
  | RCat r1 r2 =>
      rmatch r1 pos s caps (λ pos' s' caps', rmatch r2 pos' s' caps' k)
  | RAlt r1 r2 =>
      match rmatch r1 pos s caps k with
      | Some m => Some m
      | None => rmatch r2 pos s caps k
      end
  end.

(** [re.match(pattern, s)]: [None], or the match object. *)
Definition re_match (pattern s : string) : result (option captures) :=
  r ← parse pattern;
  Ok (rmatch r 0 s ∅ (λ _ _ caps, Some caps)).

(** ** [is_paired] *)

(** [m.group(1)] is [None] when the first group took no part in the match,
    so the keys of [infiles_dic] are optional strings. *)
Abbreviation pairing := (gmap (option string) (list string)).

Definition read_pattern (r0 r1 : string) : string :=
  "^(.+)(" +:+ r0 +:+ "|" +:+ r1 +:+ ")$".

(** The body of the loop. *)
Definition record_infile (ext : string) (reads : list string)
    (infile : string) (infiles_dic : pairing) : result pairing :=
  let fname := strip_ext infile ext in
  r0 ← py_index reads 0;
  r1 ← py_index reads 1;
  m ← re_match (read_pattern r0 r1) fname;
  match m with
  | Some groups =>
      let bname := groups !! 1 in
      match infiles_dic !! bname with
      | None => Ok (<[bname := [infile]]> infiles_dic)
      | Some files => Ok (<[bname := files ++ [infile]]> infiles_dic)
      end
  | None => Ok infiles_dic
  end.

Definition group_files (infiles : list string) (ext : string)
    (reads : list string) : result pairing :=
  for_each infiles (record_infile ext reads) ∅.

Definition group_sizes (infiles_dic : pairing) : list nat :=
  length <$> (map_to_list infiles_dic).*2.

Definition is_paired (infiles : list string) (ext : string)
    (reads : list string) : result bool :=
  infiles_dic ← group_files infiles ext reads;
  Ok (if bool_decide (infiles_dic ≠ ∅)
      then bool_decide (max_list (group_sizes infiles_dic) = 2)
      else false).

(** * Further functions of the module *)

(** ** [merge_dicts] *)

Section Merge.
Context {V : Type}.

(** [z.update(y)]: every entry of [y] is stored in [z]. *)
Definition dict_update (z y : gmap string V) : gmap string V :=
  map_fold (λ k v z, <[k := v]> z) z y.

(** [y] may be [None]; like an empty dictionary it is false. *)
Definition merge_dicts (x : gmap string V) (y : option (gmap string V))
  : gmap string V :=
  let z := x in
  match y with
  | Some d => if bool_decide (d ≠ ∅) then dict_update z d else z
  | None => z
  end.
End Merge.

(** ** Ways for a call to stop *)

Inductive exit_arg : Set :=
| ExitCode (n : nat)
| ExitMessage (msg : string).   (* printed on the error stream, status 1 *)

Inductive stop : Set :=
| Uncaught (e : exn)
| TypeError
| ValueError
| OverflowError
| CalledProcessError
| SystemExit (arg : exit_arg).   (* [exit(arg)] *)

Inductive outcome (A : Type) : Type :=
| Done (a : A)
| Stop (s : stop).
Arguments Done {A} a.
Arguments Stop {A} s.

(** ** [os.path.join] (posixpath) *)

Definition ends_with_slash (path : string) : bool :=
  match String.rev path with
  | String c _ => Ascii.eqb c slash
  | "" => false
  end.

(** One turn of the loop of [join]. *)
Definition join_step (path b : string) : string :=
  if String.prefix "/" b then b
  else if bool_decide (path = "") || ends_with_slash path then path +:+ b
  else path +:+ "/" +:+ b.

Definition path_join (a : string) (p : list string) : string :=
  foldl join_step a p.

(** ** [load_paths] and [load_organism_data] *)

Section Loading.
Context {V : Type}.
Variable format : V → string.
(** A Python string as a configuration value. *)
Variable str_value : string → V.
(** [os.path.isfile] *)
Variable isfile : string → bool.
(** The mapping stored in a YAML file. *)
Variable read_yaml : string → gmap string V.

Definition load_paths (pathfile : string) (maindir : string) (verbose : bool)
  : outcome (gmap string V) * list string :=
  let '(paths, printed) :=
    load_configfile format pathfile (read_yaml pathfile) false "Config" in
  match paths with
  | None => (Stop TypeError, printed)
  | Some paths =>
      let paths :=
        <["workflow_tools" := str_value (path_join maindir ["shared"; "tools"])]>
          paths in
      (Done paths,
       printed ++
       if verbose then
         [String "010" "--- paths " +:+ dashes 69]
         ++ ((λ kv, kv.1 +:+ ": " +:+ format kv.2) <$>
               merge_sort (λ kv1 kv2 : string * V, String.le kv1.1 kv2.1)
                          (map_to_list paths))
         ++ [dashes 80 +:+ " " +:+ String "010" ""]
       else [])
  end.

Definition load_organism_data (genome maindir : string) (verbose : bool)
  : outcome (option (gmap string V)) * list string :=
  let shared :=
    path_join maindir ["shared"; "organisms"; genome +:+ ".yaml"] in
  if isfile shared then
    let '(organism, printed) :=
      load_configfile format shared (read_yaml shared) verbose "Genome" in
    (Done organism, printed)
  else if isfile genome then
    let '(organism, printed) :=
      load_configfile format genome (read_yaml genome) verbose "Genome (user)" in
    (Done organism, printed)
  else
    (Stop (SystemExit (ExitMessage
             ("ERROR: Genome configuration file NOT found for: " +:+ genome
              +:+ String "010" ""))),
     []).
End Loading.

(** ** Whitespace *)

(** [str.isspace] on the characters with codes 0 to 255. *)
Definition py_isspace (c : ascii) : bool :=
  match c with
  | "009"%char | "010"%char | "011"%char | "012"%char | "013"%char
  | "028"%char | "029"%char | "030"%char | "031"%char | " "%char
  | "133"%char | "160"%char => true
  | _ => false
  end.

Fixpoint py_lstrip (s : string) : string :=
  match s with
  | "" => ""
  | String c s' => if py_isspace c then py_lstrip s' else s
  end.

Fixpoint py_rstrip (s : string) : string :=
  match s with
  | "" => ""
  | String c s' =>
      match py_rstrip s' with
      | "" => if py_isspace c then "" else String c ""
      | t => String c t
      end
  end.

(** [s.strip()] *)
Definition py_strip (s : string) : string := py_lstrip (py_rstrip s).

(** [cur] is the word being read, empty between words. *)
Fixpoint py_split_from (cur s : string) : list string :=
  match s with
  | "" => match cur with "" => [] | _ => [cur] end
  | String c s' =>
      if py_isspace c
      then match cur with "" => [] | _ => [cur] end ++ py_split_from "" s'
      else py_split_from (cur +:+ String c "") s'
  end.

(** [s.split()] *)
Definition py_split (s : string) : list string := py_split_from "" s.

(** ** [get_fragment_length] *)

Section Fragment.
(** [int(float(s))]: the integer, or the exception raised. *)
Variable int_float : string → Z + stop.

Definition not_bamPE (infile : string) : string :=
  "ERROR: File " +:+ infile +:+ " is NOT an output from bamPEFragmentSize."
  +:+ String "010" "".

(** [lines] are the lines of the file [infile]. The result is the value
    returned or the way the call stops, with what was printed. *)
Fixpoint get_fragment_length (infile : string) (lines : list string)
    (sampleName : string) : outcome Z * list string :=
  match lines with
  | [] => (Stop (SystemExit (ExitCode 1)), [not_bamPE infile])
  | line :: lines' =>
      let line := py_strip line in
      if String.prefix ("filtered_bam/" +:+ sampleName) line then
        match py_split line !! 5 with
        | None => (Stop (Uncaught IndexError), [])
        | Some median =>
            match int_float median with
            | inl n => (Done n, [])
            | inr TypeError =>
                (Stop (SystemExit (ExitCode 1)), [not_bamPE infile])
            | inr s => (Stop s, [])
            end
        end
      else get_fragment_length infile lines' sampleName
  end.
End Fragment.

(** ** [check_sample_info_header] *)

Section Header.
(** [subprocess.check_output(cmd, shell=True).decode()]: the output, or
    [None] when the command fails. *)
Variable check_output : string → option string.

Definition check_sample_info_header (sample_info_file : string)
  : outcome bool :=
  match check_output ("cat " +:+ sample_info_file +:+ " | head -n1") with
  | None => Stop CalledProcessError
  | Some ret =>
      Done (bool_decide ("name" ∈ py_split ret)
            && bool_decide ("condition" ∈ py_split ret))
  end.
End Header.

(** ** [make_temp_dir] *)

Section TempDir.
(** [subprocess.check_output(cmd, shell=True, stderr=subprocess.STDOUT)],
    decoded: the output, or [None] for [CalledProcessError]. *)
Variable check_output : string → option string.

Definition mktemp_command (dir : string) : string :=
  "mktemp -d -p " +:+ dir +:+ "/ tmp.snakemake.XXXXXXXX".

Definition temp_dir_created (verbose : bool) (temp_path : string)
  : list string :=
  if verbose then [String "010" "temp dir created: " +:+ temp_path] else [].

Definition make_temp_dir (tempdir fallback_dir : string) (verbose : bool)
  : outcome string * list string :=
  match check_output (mktemp_command tempdir) with
  | Some output =>
      let temp_path := py_rstrip output +:+ "/" in
      (Done temp_path, temp_dir_created verbose temp_path)
  | None =>
      let printed :=
        [String "010" "Failed to create temp dir under temp path prefix ("
         +:+ tempdir +:+ ")! Try fallback: " +:+ fallback_dir +:+ "/ ..."] in
      match check_output (mktemp_command fallback_dir) with
      | Some output =>
          let temp_path := py_rstrip output +:+ "/" in
          (Done temp_path, printed ++ temp_dir_created verbose temp_path)
      | None =>
          (Stop (SystemExit (ExitCode 1)),
           printed ++
           [String "010" "Also failed to create temp dir under fallback prefix ("
            +:+ fallback_dir +:+ "/)!"])
      end
  end.
End TempDir.

(** ** Notions used to state the properties *)

(** [old] occurs in [s] at one of the first [n] positions. *)
Fixpoint occurs_before (old : string) (n : nat) (s : string) : bool :=
  match n, s with
  | S n', String _ s' => String.prefix old s || occurs_before old n' s'
  | _, _ => false
  end.

(** What the specification's wording of the extension removal describes:
    only the first occurrence of [ext] is taken out. *)
Fixpoint spec_remove_first (ext s : string) : string :=
  match s with
  | "" => ""
  | String c s' =>
      if String.prefix ext s then String.substring (String.length ext) (String.length s) s
      else String c (spec_remove_first ext s')
  end.

(** The name computed for one file, as a total function. *)
Definition name_of (x ext : string) (reads : list string) : string :=
  match reads with
  | r0 :: r1 :: _ => py_replace r1 "" (py_replace r0 "" (strip_ext x ext))
  | _ => strip_ext x ext
  end.

(** The characters with a meaning of their own in a pattern
    ([SPECIAL_CHARS] of Python's pattern parser). *)
Definition special (c : ascii) : bool :=
  match c with
  | "."%char | "\"%char | "["%char | "{"%char | "("%char | ")"%char
  | "*"%char | "+"%char | "?"%char | "^"%char | "$"%char | "|"%char => true
  | _ => false
  end.

(** A string that, read as a pattern, stands for itself. *)
Fixpoint literal (s : string) : bool :=
  match s with
  | "" => true
  | String c s' => negb (special c) && literal s'
  end.

Fixpoint no_newline (s : string) : bool :=
  match s with
  | "" => true
  | String c s' => negb (Ascii.eqb c newline) && no_newline s'
  end.

(** [strip_suffix suf s = Some p] when [s] is [p] followed by [suf]. *)
Fixpoint strip_suffix (suf s : string) : option string :=
  if String.eqb s suf then Some ""
  else match s with
       | "" => None
       | String c s' => String c <$> strip_suffix suf s'
       end.

(** [strip_prefix pre s = Some t] when [s] is [pre] followed by [t]. *)
Fixpoint strip_prefix (pre s : string) : option string :=
  match pre, s with
  | "", _ => Some s
  | String c pre', String d s' =>
      if Ascii.eqb c d then strip_prefix pre' s' else None
  | String _ _, "" => None
  end.

Definition nonempty (o : option string) : option string :=
  match o with
  | Some "" => None
  | _ => o
  end.

Definition longer (a b : option string) : option string :=
  match a, b with
  | Some p0, Some p1 =>
      Some (if String.length p0 <? String.length p1 then p1 else p0)
  | Some p, None | None, Some p => Some p
  | None, None => None
  end.

(** The base name the specification gives to a stripped file name: the
    non-empty prefix that is followed by one of the two read suffixes (the
    longer prefix when both suffixes fit). *)
Definition spec_bname (s0 s1 fname : string) : option string :=
  longer (nonempty (strip_suffix s0 fname)) (nonempty (strip_suffix s1 fname)).

(** The group of the base name [p]: the files named [p] plus a read suffix,
    in the order of the input. *)
Definition spec_group (infiles : list string) (ext s0 s1 p : string)
  : list string :=
  filter (λ infile, spec_bname s0 s1 (strip_ext infile ext) = Some p) infiles.

(** The items a literal string is parsed into. *)
Fixpoint lit_items (s : string) : list regex :=
  match s with
  | "" => []
  | String c s' => RAtom (AChar c) QOne :: lit_items s'
  end.

(** The longest prefix of [s] after which [tail] holds. *)
Fixpoint longest_split (tail : string → bool) (s : string) : option string :=
  match s with
  | "" => if tail "" then Some "" else None
  | String c s' =>
      match longest_split tail s' with
      | Some p => Some (String c p)
      | None => if tail s then Some "" else None
      end
  end.

(** The expression [read_pattern r0 r1] compiles to when [r0] and [r1] are
    literal. *)
Definition read_regex (r0 r1 : string) : regex :=
  seq_of [RBol;
          RGroup 1 (seq_of [RAtom AAny QPlus]);
          RGroup 2 (RAlt (seq_of (lit_items r0)) (seq_of (lit_items r1)));
          REol].

(** [rest] is one of the two suffixes. *)
Definition is_suffix (r0 r1 rest : string) : bool :=
  String.eqb rest r0 || String.eqb rest r1.

(** The first group of a match of [read_regex r0 r1]: a first character,
    then as many characters as a suffix allows. *)
Definition greedy_bname (r0 r1 fname : string) : option string :=
  match fname with
  | "" => None
  | String c s => String c <$> longest_split (is_suffix r0 r1) s
  end.

(** The outcome [o] of a match has [b] as first group ([o] is no match when
    [b] is [None]). *)
Definition first_group (o : option captures) (b : option string) : Prop :=
  match b with
  | Some p => ∃ m, o = Some m ∧ m !! 1 = Some p
  | None => o = None
  end.

(** [suf] ends [s] and is shorter than [s]. *)
Definition proper_suffix (suf s : string) : bool :=
  match nonempty (strip_suffix suf s) with
  | Some _ => true
  | None => false
  end.

(** [infile] joins the group of [bname]. *)
Definition add_file (bname : option string) (infile : string) (dic : pairing)
  : pairing :=
  match dic !! bname with
  | None => <[bname := [infile]]> dic
  | Some files => <[bname := files ++ [infile]]> dic
  end.

(** The group found in the dictionary, followed by further files. *)
Definition extend (group : option (list string)) (files : list string)
  : option (list string) :=
  match files with
  | [] => group
  | _ => Some (default [] group ++ files)
  end.

(** [old] occurs somewhere in [s]. *)
Definition occurs (old s : string) : bool :=
  occurs_before old (String.length s) s.

Global Instance exn_eq_dec : EqDecision exn.
Proof. solve_decision. Defined.

Global Instance result_eq_dec {A} `{EqDecision A} : EqDecision (result A).
Proof. solve_decision. Defined.

(** The key under which the loop of [is_paired] files [infile]; [None] when
    the pattern does not match its name. *)
Definition bname_of (ext : string) (reads : list string) (infile : string)
  : result (option (option string)) :=
  r0 ← py_index reads 0;
  r1 ← py_index reads 1;
  m ← re_match (read_pattern r0 r1) (strip_ext infile ext);
  Ok (match m with
      | Some groups => Some (groups !! 1)
      | None => None
      end).

(** The files of [infiles] filed under [key], in the order of the input. *)
Definition keyed_group (ext : string) (reads infiles : list string)
    (key : option string) : list string :=
  filter (λ infile, bname_of ext reads infile = Ok (Some key)) infiles.

(** No whitespace in [s]. *)
Fixpoint no_space (s : string) : bool :=
  match s with
  | "" => true
  | String c s' => negb (py_isspace c) && no_space s'
  end.

(** The row of [sampleName] starts like this. *)
Definition row_start (sampleName : string) : string :=
  "filtered_bam/" +:+ sampleName.

(** The body of the first group of [read_pattern]: [.+]. *)
Definition first_group_body : regex := seq_of [RAtom AAny QPlus].

(** Wherever the group numbered 1 stands in [r], its body is [.+]. *)
Fixpoint first_group_intact (r : regex) : Prop :=
  match r with
  | RGroup i r' => (i = 1 → r' = first_group_body) ∧ first_group_intact r'
  | RCat r1 r2 | RAlt r1 r2 => first_group_intact r1 ∧ first_group_intact r2
  | _ => True
  end.

(** The captures do not give the first group the empty text. *)
Definition first_group_nonempty (caps : captures) : Prop :=
  caps !! 1 ≠ Some "".

(** Only whitespace in [s]. *)
Fixpoint all_space (s : string) : bool :=
  match s with
  | "" => true
  | String c s' => py_isspace c && all_space s'
  end.

(** The last character of [s] is whitespace. *)
Fixpoint ends_in_space (s : string) : bool :=
  match s with
  | "" => false
  | String c "" => py_isspace c
  | String _ s' => ends_in_space s'
  end.

(** * Properties *)

(** ** Strings *)

Lemma string_app_cons c s t : String c s +:+ t = String c (s +:+ t).
Proof. reflexivity. Qed.

Lemma string_app_nil_l s : "" +:+ s = s.
Proof. reflexivity. Qed.

Lemma string_app_nil_r s : s +:+ "" = s.
Proof. induction s as [|c s IH]; [done|]. by rewrite string_app_cons, IH. Qed.

Lemma string_app_assoc s t u : (s +:+ t) +:+ u = s +:+ (t +:+ u).
Proof.
  induction s as [|c s IH]; [done|]. by rewrite !string_app_cons, IH.
Qed.

Lemma string_app_length s t :
  String.length (s +:+ t) = String.length s + String.length t.
Proof.
  induction s as [|c s IH]; [done|]. rewrite string_app_cons. simpl. by rewrite IH.
Qed.

Lemma prefix_app old b : String.prefix old (old +:+ b) = true.
Proof.
  induction old as [|c old IH]; [by destruct b|].
  rewrite string_app_cons. simpl. by destruct (ascii_dec c c).
Qed.

(** ** [str.replace] *)

Lemma replace_scan_skip old new t b :
  replace_scan old new (String.length t) (t +:+ b) = replace_scan old new 0 b.
Proof. induction t as [|c t IH]; [done|]. by rewrite string_app_cons. Qed.

Lemma replace_scan_here old new b :
  old ≠ "" →
  replace_scan old new 0 (old +:+ b) = new +:+ replace_scan old new 0 b.
Proof.
  intros Hold. pose proof (prefix_app old b) as Hp.
  destruct old as [|c old]; [done|].
  rewrite string_app_cons in *. cbn [replace_scan]. rewrite Hp.
  cbn [String.length]. rewrite Nat.sub_1_r. cbn [Nat.pred].
  by rewrite replace_scan_skip.
Qed.

Lemma replace_scan_first old new a b :
  old ≠ "" →
  occurs_before old (String.length a) (a +:+ old +:+ b) = false →
  replace_scan old new 0 (a +:+ old +:+ b)
  = a +:+ new +:+ replace_scan old new 0 b.
Proof.
  intros Hold. induction a as [|c a IH]; intros Hocc.
  - rewrite !string_app_nil_l. by apply replace_scan_here.
  - rewrite string_app_cons in *. cbn [String.length occurs_before] in Hocc.
    apply orb_false_iff in Hocc as [Hp Hocc].
    cbn [replace_scan]. rewrite Hp. by rewrite IH, string_app_cons.
Qed.

Lemma py_replace_first old new a b :
  old ≠ "" →
  occurs_before old (String.length a) (a +:+ old +:+ b) = false →
  py_replace old new (a +:+ old +:+ b) = a +:+ new +:+ py_replace old new b.
Proof.
  intros Hold Hocc. unfold py_replace. destruct old; [done|].
  by apply replace_scan_first.
Qed.

(** ** [get_sample_names] *)

Lemma strip_reads_ok x reads :
  strip_reads x reads
  = Ok (match reads with
        | r0 :: r1 :: _ => py_replace r1 "" (py_replace r0 "" x)
        | _ => x
        end).
Proof. by destruct reads as [|r0 [|r1 reads]]. Qed.

Lemma sample_name_ok x ext reads :
  sample_name x ext reads = Ok (name_of x ext reads).
Proof. unfold sample_name, name_of. by rewrite strip_reads_ok. Qed.

Lemma sample_loop_ok infiles ext reads acc :
  for_each infiles (λ x s, x ← sample_name x ext reads; Ok (s ++ [x])) acc
  = Ok (acc ++ ((λ x, name_of x ext reads) <$> infiles)).
Proof.
  revert acc. induction infiles as [|x infiles IH]; intros acc; simpl.
  - by rewrite app_nil_r.
  - rewrite sample_name_ok. simpl. rewrite IH. by rewrite <- app_assoc.
Qed.

Lemma get_sample_names_iter_ok set_iter infiles ext reads :
  get_sample_names_iter set_iter infiles ext reads
  = Ok (sorted (set_iter (list_to_set ((λ x, name_of x ext reads) <$> infiles)))).
Proof. unfold get_sample_names_iter. by rewrite sample_loop_ok. Qed.

(** C3 (as amended): the extension is removed at its first occurrence in
    the file name and the removal goes on in what follows that occurrence, so
    later occurrences are taken out as well. *)
Theorem strip_ext_every_occurrence x ext reads a b :
  ext ≠ "" →
  basename x = a +:+ ext +:+ b →
  occurs_before ext (String.length a) (basename x) = false →
  strip_ext x ext = a +:+ py_replace ext "" b ∧
  sample_name x ext reads = strip_reads (a +:+ py_replace ext "" b) reads.
Proof.
  intros Hext Hbase Hocc. unfold sample_name, strip_ext.
  rewrite Hbase in *. by rewrite py_replace_first.
Qed.

Lemma strip_ext_every_occurrence_witness :
  strip_ext "/data/a.bam.bam" ".bam" = "a" +:+ py_replace ".bam" "" ".bam" ∧
  sample_name "/data/a.bam.bam" ".bam" ["_R1"; "_R2"]
  = strip_reads ("a" +:+ py_replace ".bam" "" ".bam") ["_R1"; "_R2"].
Proof.
  apply (strip_ext_every_occurrence "/data/a.bam.bam" ".bam" ["_R1"; "_R2"]
           "a" ".bam"); [discriminate | reflexivity | reflexivity].
Defined.

(** C3 (as stated) fails: with two occurrences of the extension in the file
    name both are removed, while removing the first one only would leave the
    second. *)
Lemma strip_ext_first_only_counterexample :
  get_sample_names ["/data/a.bam.bam"] ".bam" [] = Ok ["a"] ∧
  spec_remove_first ".bam" (basename "/data/a.bam.bam") = "a.bam".
Proof. split; vm_compute; reflexivity. Qed.

(** C4: the names returned are free of duplicates and in ascending order. *)
Theorem get_sample_names_nodup_sorted infiles ext reads :
  ∃ names, get_sample_names infiles ext reads = Ok names ∧
           NoDup names ∧ Sorted String.le names.
Proof.
  eexists. split; [apply get_sample_names_iter_ok|]. split.
  - unfold sorted. rewrite merge_sort_Permutation. apply NoDup_elements.
  - apply (Sorted_merge_sort String.le).
Qed.

(** No file, no name. *)
Lemma get_sample_names_nil ext reads : get_sample_names [] ext reads = Ok [].
Proof.
  unfold get_sample_names. rewrite get_sample_names_iter_ok. simpl.
  by rewrite elements_empty.
Qed.

(** C6: the result does not depend on the order in which the set of names is
    enumerated. *)
Theorem get_sample_names_deterministic
    (iter1 iter2 : gset string → list string) infiles ext reads :
  (∀ X, iter1 X ≡ₚ elements X) →
  (∀ X, iter2 X ≡ₚ elements X) →
  get_sample_names_iter iter1 infiles ext reads
  = get_sample_names_iter iter2 infiles ext reads.
Proof.
  intros H1 H2. rewrite !get_sample_names_iter_ok. f_equal.
  apply (Sorted_unique String.le).
  - apply (Sorted_merge_sort String.le).
  - apply (Sorted_merge_sort String.le).
  - unfold sorted. by rewrite !merge_sort_Permutation, H1, H2.
Qed.

Lemma get_sample_names_deterministic_witness :
  get_sample_names_iter elements ["b_R1.fq"; "a_R1.fq"; "b_R2.fq"] ".fq"
                        ["_R1"; "_R2"]
  = get_sample_names_iter (λ X, reverse (elements X))
                          ["b_R1.fq"; "a_R1.fq"; "b_R2.fq"] ".fq" ["_R1"; "_R2"].
Proof.
  apply get_sample_names_deterministic.
  - reflexivity.
  - intros X. apply reverse_Permutation.
Defined.



(** ** Configuration dictionaries *)

Section ConfigProperties.
Context {V : Type}.
Variable py_ne : V → V → bool.
Variable format : V → string.

Lemma sanity_dict_clean_delete (d : gmap string V) :
  sanity_dict_clean (Some d) = Some (delete "workflow" (delete "maindir" d)).
Proof.
  assert (∀ (m : gmap string V) k,
            (if bool_decide (m ≠ ∅) && bool_decide (is_Some (m !! k))
             then Some (delete k m) else Some m) = Some (delete k m)) as Hstep.
  { intros m k. destruct (m !! k) as [v|] eqn:Hk.
    - rewrite (bool_decide_eq_true_2 (is_Some (Some v))) by eauto.
      case_bool_decide as Hm; [done|].
      subst m. by rewrite lookup_empty in Hk.
    - rewrite (bool_decide_eq_false_2 (is_Some None)) by (by intros [??]).
      rewrite andb_false_r. by rewrite delete_id. }
  unfold sanity_dict_clean, unwanted_keys. simpl. rewrite Hstep.
  by rewrite Hstep.
Qed.

(** C8: the dictionary returned by [load_configfile] has neither
    ['maindir'] nor ['workflow'], and agrees with the parsed mapping on
    every other key. *)
Theorem load_configfile_reserved_keys configfile (parsed : gmap string V)
    verbose info :
  ∃ config,
    (load_configfile format configfile parsed verbose info).1 = Some config ∧
    ∀ k, config !! k
         = if decide (k = "maindir" ∨ k = "workflow") then None
           else parsed !! k.
Proof.
  eexists. split.
  - unfold load_configfile. simpl. apply sanity_dict_clean_delete.
  - intros k. case_decide as Hk.
    + destruct Hk as [-> | ->].
      * by rewrite lookup_delete_ne, lookup_delete_eq.
      * by rewrite lookup_delete_eq.
    + rewrite !lookup_delete_ne; [done|naive_solver..].
Qed.

(** C7: [config_diff dict1 dict2] holds exactly the keys of [dict1] that
    are missing from [dict2] or whose values differ, each with the value
    it has in [dict1]. *)
Theorem config_diff_lookup (dict1 dict2 : gmap string V) k :
  config_diff py_ne dict1 dict2 !! k
  = match dict1 !! k with
    | Some v => match dict2 !! k with
                | Some v2 => if py_ne v v2 then Some v else None
                | None => Some v
                end
    | None => None
    end.
Proof.
  unfold config_diff.
  apply (map_fold_weak_ind (λ diff (m : gmap string V),
    diff !! k = match m !! k with
                | Some v => match dict2 !! k with
                            | Some v2 => if py_ne v v2 then Some v else None
                            | None => Some v
                            end
                | None => None
                end)).
  - by rewrite !lookup_empty.
  - intros i x m diff Hi IH. destruct (decide (i = k)) as [->|Hne].
    + rewrite lookup_insert_eq. rewrite Hi in IH.
      destruct (dict2 !! k) as [v2|]; [destruct (py_ne x v2)|];
        by rewrite ?lookup_insert_eq.
    + rewrite (lookup_insert_ne m) by done. rewrite <- IH.
      destruct (dict2 !! i) as [v2|]; [destruct (py_ne x v2)|];
        by rewrite ?lookup_insert_ne.
Qed.
End ConfigProperties.

(** ** Compiling the pattern of [is_paired] *)

Lemma parse_from_plain c s next alts items stack :
  special c = false →
  parse_from (String c s) next alts items stack
  = parse_from s next alts (RAtom (AChar c) QOne :: items) stack.
Proof. by destruct c as [[] [] [] [] [] [] [] []]. Qed.

Lemma parse_from_literal lit s next alts items stack :
  literal lit = true →
  parse_from (lit +:+ s) next alts items stack
  = parse_from s next alts (rev (lit_items lit) ++ items) stack.
Proof.
  revert items. induction lit as [|c lit IH]; intros items Hlit; [done|].
  simpl in Hlit. apply andb_true_iff in Hlit as [Hc Hlit].
  apply negb_true_iff in Hc.
  rewrite string_app_cons, parse_from_plain, IH by done.
  simpl. by rewrite <- app_assoc.
Qed.

Lemma parse_from_open s next alts items stack :
  (∀ t, s ≠ String "?" t) →
  parse_from (String "(" s) next alts items stack
  = parse_from s (S next) [] [] ((next, alts, items) :: stack).
Proof.
  intros Hs. destruct s as [|c t]; [done|].
  destruct c as [[] [] [] [] [] [] [] []]; try done. by destruct (Hs t).
Qed.

Lemma literal_not_question lit s t :
  literal lit = true → lit +:+ String "|" s ≠ String "?" t.
Proof.
  destruct lit as [|c lit]; [done|]. rewrite string_app_cons.
  intros Hlit [= -> _]. done.
Qed.

Lemma parse_read_pattern r0 r1 :
  literal r0 = true → literal r1 = true →
  parse (read_pattern r0 r1) = Ok (read_regex r0 r1).
Proof.
  intros H0 H1. unfold parse, read_pattern.
  change ("^(.+)(" +:+ r0 +:+ "|" +:+ r1 +:+ ")$")
    with (String "^" (String "(" (String "." (String "+" (String ")"
            (String "(" (r0 +:+ String "|" (r1 +:+ ")$")))))))).
  set (tl := String "(" (r0 +:+ _)).
  cbn [parse_from]. change (repeat_last QPlus [RAtom AAny QOne])
    with (Ok [RAtom AAny QPlus]). cbn [mbind result_bind]. subst tl.
  rewrite parse_from_open by (intros t; apply literal_not_question; done).
  rewrite parse_from_literal by done.
  cbn [parse_from]. rewrite parse_from_literal by done.
  cbn [parse_from]. rewrite !app_nil_r, !rev_involutive.
  unfold close, read_regex. cbn [rev app seq_of alt_of].
  by rewrite rev_involutive.
Qed.

(** ** Matching the pattern of [is_paired] *)

Lemma strip_prefix_app pre t : strip_prefix pre (pre +:+ t) = Some t.
Proof.
  induction pre as [|c pre IH]; [done|]. rewrite string_app_cons. simpl.
  by rewrite Ascii.eqb_refl.
Qed.

Lemma strip_prefix_Some pre s t : strip_prefix pre s = Some t → s = pre +:+ t.
Proof.
  revert s. induction pre as [|c pre IH]; intros [|d s]; simpl; try done.
  - by intros [= <-].
  - by intros [= <-].
  - destruct (Ascii.eqb_spec c d) as [->|]; [|done].
    intros ->%IH. by rewrite string_app_cons.
Qed.

Lemma substring_0_app a b : String.substring 0 (String.length a) (a +:+ b) = a.
Proof.
  induction a as [|c a IH]; [by destruct b|].
  rewrite string_app_cons. simpl. by rewrite IH.
Qed.

Lemma no_newline_app a b :
  no_newline (a +:+ b) = true → no_newline a = true ∧ no_newline b = true.
Proof.
  induction a as [|c a IH]; [done|]. rewrite string_app_cons. simpl.
  intros [-> ?%IH]%andb_true_iff. naive_solver.
Qed.

Lemma at_end_no_newline t :
  no_newline t = true → at_end t = true → t = "".
Proof.
  destruct t as [|c [|d t]]; simpl; try done.
  by destruct (Ascii.eqb c newline).
Qed.

Lemma app_eq_self_l a t : a +:+ t = a → t = "".
Proof.
  intros H%(f_equal String.length). rewrite string_app_length in H.
  destruct t; [done|]. simpl in H. lia.
Qed.

Lemma rmatch_lit l pos s caps k :
  rmatch (seq_of (lit_items l)) pos s caps k
  = match strip_prefix l s with
    | Some t => k (pos + String.length l) t caps
    | None => None
    end.
Proof.
  revert pos s. induction l as [|c l IH]; intros pos s; simpl.
  - by rewrite Nat.add_0_r.
  - destruct s as [|d s]; [done|]. simpl.
    destruct (Ascii.eqb c d); [|done]. by rewrite IH, Nat.add_succ_r.
Qed.

(** One alternative of the second group, followed by [$]. *)
Lemma rmatch_lit_eol l pos rest (caps : captures) (i : nat) :
  no_newline rest = true →
  match strip_prefix l rest with
  | Some t =>
      if at_end t
      then Some (<[i := String.substring 0 (pos + String.length l - pos) rest]> caps)
      else None
  | None => None
  end = if String.eqb rest l then Some (<[i := rest]> caps) else None.
Proof.
  intros Hnl. destruct (strip_prefix l rest) as [t|] eqn:Ht.
  - apply strip_prefix_Some in Ht as ->.
    apply no_newline_app in Hnl as [_ Hnl].
    destruct (at_end t) eqn:Hend.
    + apply at_end_no_newline in Hend as ->; [|done].
      rewrite string_app_nil_r, String.eqb_refl.
      replace (pos + String.length l - pos) with (String.length l) by lia.
      by rewrite <- (string_app_nil_r l) at 2; rewrite substring_0_app.
    + destruct (String.eqb_spec (l +:+ t) l) as [Heq|]; [|done].
      apply app_eq_self_l in Heq as ->. done.
  - destruct (String.eqb_spec rest l) as [->|]; [|done].
    pose proof (strip_prefix_app l "") as H. rewrite string_app_nil_r in H.
    congruence.
Qed.

(** The second group and [$], on what the first group left. *)
Lemma rmatch_tail r0 r1 pos rest (caps : captures) :
  no_newline rest = true →
  rmatch (seq_of [RGroup 2 (RAlt (seq_of (lit_items r0)) (seq_of (lit_items r1)));
                  REol])
         pos rest caps (λ _ _ caps', Some caps')
  = if String.eqb rest r0 then Some (<[2 := rest]> caps)
    else if String.eqb rest r1 then Some (<[2 := rest]> caps) else None.
Proof.
  intros Hnl. cbn [seq_of rmatch]. rewrite !rmatch_lit.
  rewrite !rmatch_lit_eol by done. by destruct (String.eqb rest r0).
Qed.

Lemma match_star_any_longest (tail : string → bool) (k : cont) caps S :
  (∀ a rest, S = a +:+ rest → no_newline rest = true →
             first_group (k (String.length a) rest caps)
                         (if tail rest then Some a else None)) →
  ∀ s pre, S = pre +:+ s → no_newline s = true →
    first_group (match_star AAny (String.length pre) s caps k)
                ((λ p, pre +:+ p) <$> longest_split tail s).
Proof.
  intros Hk. induction s as [|c s IH]; intros pre HS Hnl.
  - simpl. specialize (Hk pre "" HS eq_refl).
    destruct (tail ""); simpl; [|done]. by rewrite string_app_nil_r.
  - simpl in Hnl. apply andb_true_iff in Hnl as [Hc Hnl].
    cbn [match_star atom_matches longest_split]. rewrite Hc.
    specialize (IH (pre +:+ String c "")).
    rewrite string_app_length, Nat.add_1_r in IH.
    rewrite string_app_assoc in IH. specialize (IH HS Hnl).
    destruct (longest_split tail s) as [p|]; simpl in *.
    + destruct IH as (m & -> & Hm). exists m.
      by rewrite string_app_assoc in Hm.
    + rewrite IH. specialize (Hk pre (String c s) HS).
      destruct (tail (String c s)); simpl in *; rewrite ?string_app_nil_r;
        apply Hk; by rewrite Hc, Hnl.
Qed.

Lemma rmatch_read_regex r0 r1 fname :
  no_newline fname = true →
  first_group (rmatch (read_regex r0 r1) 0 fname ∅ (λ _ _ caps, Some caps))
              (greedy_bname r0 r1 fname).
Proof.
  intros Hnl. unfold read_regex.
  change (seq_of (RBol :: RGroup 1 (seq_of [RAtom AAny QPlus]) :: ?tl))
    with (RCat RBol (RCat (RGroup 1 (RCat (RAtom AAny QPlus) REmpty)) (seq_of tl))).
  set (tl := seq_of _). cbn [rmatch]. rewrite decide_True by done.
  destruct fname as [|c s]; [done|]. simpl in Hnl.
  apply andb_true_iff in Hnl as [Hc Hnl].
  cbn [match_atom atom_matches greedy_bname]. rewrite Hc.
  assert (∀ a rest, String c s = a +:+ rest → no_newline rest = true →
            first_group
              (rmatch tl (String.length a) rest
                 (<[1 := String.substring 0 (String.length a - 0) (String c s)]> ∅)
                 (λ _ _ caps, Some caps))
              (if is_suffix r0 r1 rest then Some a else None)) as Hk.
  { intros a rest HS Hrest. subst tl. rewrite rmatch_tail by done.
    rewrite HS, Nat.sub_0_r, substring_0_app. unfold is_suffix.
    destruct (String.eqb rest r0), (String.eqb rest r1); simpl; try done;
      eexists; (split; [done|]); by rewrite lookup_insert_ne, lookup_insert_eq. }
  exact (match_star_any_longest (is_suffix r0 r1) _ ∅ (String c s) Hk s
           (String c "") eq_refl Hnl).
Qed.

(** ** The greedy match and the base name of the specification *)

Lemma strip_suffix_Some suf s p : strip_suffix suf s = Some p → s = p +:+ suf.
Proof.
  revert p. induction s as [|c s IH]; intros p; cbn [strip_suffix].
  - destruct (String.eqb_spec "" suf) as [<-|]; [|done]. by intros [= <-].
  - destruct (String.eqb_spec (String c s) suf) as [<-|]; [by intros [= <-]|].
    destruct (strip_suffix suf s) as [q|]; [|done].
    intros [= <-]. by rewrite string_app_cons, <- (IH q).
Qed.

Lemma strip_suffix_app suf p : strip_suffix suf (p +:+ suf) = Some p.
Proof.
  induction p as [|c p IH].
  - rewrite string_app_nil_l. destruct suf as [|d suf]; [done|].
    cbn [strip_suffix]. by rewrite String.eqb_refl.
  - rewrite string_app_cons. cbn [strip_suffix]. rewrite IH.
    destruct (String.eqb_spec (String c (p +:+ suf)) suf) as [Heq|]; [|done].
    apply (f_equal String.length) in Heq. simpl in Heq.
    rewrite string_app_length in Heq. lia.
Qed.

Lemma strip_suffix_whole c s : strip_suffix (String c s) s = None.
Proof.
  destruct (strip_suffix (String c s) s) as [p|] eqn:Hp; [|done].
  apply strip_suffix_Some, (f_equal String.length) in Hp.
  rewrite string_app_length in Hp. simpl in Hp. lia.
Qed.

Lemma strip_suffix_cons suf c s :
  strip_suffix suf (String c s)
  = if String.eqb (String c s) suf then Some ""
    else String c <$> strip_suffix suf s.
Proof. done. Qed.

Lemma nonempty_strip_suffix suf c s :
  nonempty (strip_suffix suf (String c s)) = String c <$> strip_suffix suf s.
Proof.
  rewrite strip_suffix_cons.
  destruct (String.eqb_spec (String c s) suf) as [<-|].
  - by rewrite strip_suffix_whole.
  - by destruct (strip_suffix suf s).
Qed.

Lemma longer_cons c a b :
  longer (String c <$> a) (String c <$> b) = String c <$> longer a b.
Proof.
  destruct a as [a|], b as [b|]; try done.
  unfold longer, Nat.ltb. simpl.
    by match goal with |- context [if ?x then _ else _] => destruct x end.
Qed.

Lemma longest_split_suffix r0 r1 s :
  longest_split (is_suffix r0 r1) s
  = longer (strip_suffix r0 s) (strip_suffix r1 s).
Proof.
  induction s as [|c s IH].
  - by destruct r0, r1.
  - cbn [longest_split]. rewrite IH, !strip_suffix_cons. unfold is_suffix.
    destruct (String.eqb_spec (String c s) r0) as [<-|];
      destruct (String.eqb_spec (String c s) r1) as [<-|];
      rewrite ?strip_suffix_whole; simpl;
      repeat match goal with
             | |- context [strip_suffix ?r s] => destruct (strip_suffix r s)
             end;
      try done.
    unfold longer, Nat.ltb. simpl.
    by match goal with |- context [if ?x then _ else _] => destruct x end.
Qed.

Lemma greedy_bname_spec r0 r1 fname :
  greedy_bname r0 r1 fname = spec_bname r0 r1 fname.
Proof.
  unfold spec_bname. destruct fname as [|c s].
  - by destruct r0, r1.
  - by rewrite !nonempty_strip_suffix, longer_cons, <- longest_split_suffix.
Qed.

(** On literal suffixes and a name without newline, [re.match] succeeds
    exactly when the specification gives the name a base name, which is then
    the first group. *)
Lemma re_match_literal r0 r1 fname :
  literal r0 = true → literal r1 = true → no_newline fname = true →
  ∃ m, re_match (read_pattern r0 r1) fname = Ok m ∧
       first_group m (spec_bname r0 r1 fname).
Proof.
  intros H0 H1 Hnl. unfold re_match. rewrite parse_read_pattern by done.
  eexists. split; [done|]. rewrite <- greedy_bname_spec.
  by apply rmatch_read_regex.
Qed.

(** ** The loop of [is_paired] *)

Lemma record_infile_literal (ext r0 r1 : string) (rest : list string)
    (infile : string) (dic : pairing) :
  literal r0 = true → literal r1 = true →
  no_newline (strip_ext infile ext) = true →
  record_infile ext (r0 :: r1 :: rest) infile dic
  = Ok (match spec_bname r0 r1 (strip_ext infile ext) with
        | Some p => add_file (Some p) infile dic
        | None => dic
        end).
Proof.
  intros H0 H1 Hnl. unfold record_infile. simpl.
  destruct (re_match_literal r0 r1 _ H0 H1 Hnl) as (m & -> & Hm). simpl.
  destruct (spec_bname r0 r1 (strip_ext infile ext)) as [p|]; simpl in Hm.
  - destruct Hm as (caps & -> & ->). unfold add_file.
    by destruct (dic !! Some p).
  - by rewrite Hm.
Qed.

Lemma add_file_lookup (bname : option string) (infile : string)
    (dic : pairing) (key : option string) :
  add_file bname infile dic !! key
  = if decide (bname = key) then Some (default [] (dic !! key) ++ [infile])
    else dic !! key.
Proof.
  unfold add_file. case_decide as Hkey.
  - subst key. destruct (dic !! bname); by rewrite lookup_insert_eq.
  - destruct (dic !! bname); by rewrite lookup_insert_ne.
Qed.

Lemma spec_group_cons infile infiles ext s0 s1 p :
  spec_group (infile :: infiles) ext s0 s1 p
  = if decide (spec_bname s0 s1 (strip_ext infile ext) = Some p)
    then infile :: spec_group infiles ext s0 s1 p
    else spec_group infiles ext s0 s1 p.
Proof. unfold spec_group. by rewrite filter_cons. Qed.

Lemma for_each_record_literal (ext r0 r1 : string) (rest infiles : list string)
    (dic : pairing) :
  literal r0 = true → literal r1 = true →
  Forall (λ infile, no_newline (strip_ext infile ext) = true) infiles →
  ∃ dic', for_each infiles (record_infile ext (r0 :: r1 :: rest)) dic = Ok dic' ∧
          dic' !! None = dic !! None ∧
          ∀ p, dic' !! Some p
               = extend (dic !! Some p) (spec_group infiles ext r0 r1 p).
Proof.
  intros H0 H1 Hnl. revert dic.
  induction Hnl as [|infile infiles Hinfile _ IH]; intros dic.
  - by exists dic.
  - cbn [for_each]. rewrite record_infile_literal by done. simpl.
    destruct (IH (match spec_bname r0 r1 (strip_ext infile ext) with
                  | Some p => add_file (Some p) infile dic
                  | None => dic
                  end)) as (dic' & -> & HNone & HSome).
    exists dic'. split; [done|]. split.
    + rewrite HNone. destruct (spec_bname _ _ _); [|done].
      by rewrite add_file_lookup, decide_False.
    + intros p. rewrite HSome, spec_group_cons.
      destruct (spec_bname r0 r1 (strip_ext infile ext)) as [q|].
      * rewrite add_file_lookup.
        destruct (decide (q = p)) as [->|Hne].
        -- rewrite !decide_True by done. unfold extend.
           destruct (spec_group infiles ext r0 r1 p); [done|].
           simpl. by rewrite <- app_assoc.
        -- rewrite !decide_False by congruence. done.
      * by rewrite decide_False.
Qed.

Lemma group_files_literal ext r0 r1 rest infiles :
  literal r0 = true → literal r1 = true →
  Forall (λ infile, no_newline (strip_ext infile ext) = true) infiles →
  ∃ dic, group_files infiles ext (r0 :: r1 :: rest) = Ok dic ∧
         dic !! None = None ∧
         ∀ p, dic !! Some p
              = match spec_group infiles ext r0 r1 p with
                | [] => None
                | files => Some files
                end.
Proof.
  intros H0 H1 Hnl.
  destruct (for_each_record_literal ext r0 r1 rest infiles ∅ H0 H1 Hnl)
    as (dic & Hdic & HNone & HSome).
  exists dic. split; [done|]. split; [by rewrite HNone|].
  intros p. rewrite HSome, lookup_empty. unfold extend.
  by destruct (spec_group infiles ext r0 r1 p).
Qed.

Lemma elem_of_group_sizes (dic : pairing) (n : nat) :
  n ∈ group_sizes dic ↔ ∃ key files, dic !! key = Some files ∧ n = length files.
Proof.
  unfold group_sizes. rewrite list_elem_of_fmap. split.
  - intros (files & -> & Hfiles).
    apply list_elem_of_fmap in Hfiles as ([key files'] & -> & Hin).
    apply elem_of_map_to_list in Hin. eauto.
  - intros (key & files & Hkey & ->). exists files. split; [done|].
    apply list_elem_of_fmap. exists (key, files). split; [done|].
    by apply elem_of_map_to_list.
Qed.

Lemma max_group_size (dic : pairing) :
  max_list (group_sizes dic) = 2 ↔
  (∃ key files, dic !! key = Some files ∧ length files = 2) ∧
  (∀ key files, dic !! key = Some files → length files ≤ 2).
Proof.
  split.
  - intros Hmax. split.
    + assert (group_sizes dic ≠ []) as Hne by (intros Hnil; by rewrite Hnil in Hmax).
      apply max_list_elem_of in Hne. rewrite Hmax in Hne.
      apply elem_of_group_sizes in Hne as (key & files & ? & ?). eauto.
    + intros key files Hkey. rewrite <- Hmax. apply max_list_elem_of_le.
      apply elem_of_group_sizes. eauto.
  - intros [(key & files & Hkey & Hlen) Hle].
    assert (2 ∈ group_sizes dic) as H2 by (apply elem_of_group_sizes; eauto).
    apply Nat.le_antisymm; [|by apply max_list_elem_of_le].
    assert (group_sizes dic ≠ []) as Hne by (intros Hnil; by rewrite Hnil in H2; inv H2).
    apply max_list_elem_of, elem_of_group_sizes in Hne
      as (key' & files' & Hkey' & ->). eauto.
Qed.

Lemma is_paired_max (infiles : list string) (ext : string)
    (reads : list string) (dic : pairing) :
  group_files infiles ext reads = Ok dic →
  is_paired infiles ext reads
  = Ok (bool_decide (max_list (group_sizes dic) = 2)).
Proof.
  intros Hdic. unfold is_paired. rewrite Hdic. simpl. f_equal.
  case_bool_decide as Hne; [done|].
  assert (dic = ∅) as -> by (by destruct (decide (dic = ∅))).
  unfold group_sizes. by rewrite map_to_list_empty.
Qed.

Lemma spec_bname_Some s0 s1 fname p :
  spec_bname s0 s1 fname = Some p →
  p ≠ "" ∧ (fname = p +:+ s0 ∨ fname = p +:+ s1).
Proof.
  unfold spec_bname, longer, nonempty.
  destruct (strip_suffix s0 fname) as [[|c0 p0]|] eqn:E0;
    destruct (strip_suffix s1 fname) as [[|c1 p1]|] eqn:E1;
    try done;
    try apply strip_suffix_Some in E0; try apply strip_suffix_Some in E1;
    try (intros [= <-]; split; [done|]; by auto).
  match goal with |- context [if ?x then _ else _] => destruct x end;
    intros [= <-]; (split; [done|]); auto.
Qed.

Lemma spec_group_elem_of infiles ext s0 s1 p infile :
  infile ∈ spec_group infiles ext s0 s1 p →
  spec_bname s0 s1 (strip_ext infile ext) = Some p.
Proof. unfold spec_group. by intros [? _]%list_elem_of_filter. Qed.

Lemma strip_suffix_self s : strip_suffix s s = Some "".
Proof. exact (strip_suffix_app s ""). Qed.




(** With fewer than two read suffixes the first file already makes
    [is_paired] raise. *)
Lemma is_paired_short_reads infile infiles ext reads :
  length reads < 2 →
  is_paired (infile :: infiles) ext reads = Raise IndexError.
Proof.
  intros Hlen. destruct reads as [|r0 [|r1 reads]]; [done..|simpl in Hlen; lia].
Qed.

(** [get_sample_names] returns on every input. *)
Lemma get_sample_names_returns infiles ext reads :
  ∃ names, get_sample_names infiles ext reads = Ok names.
Proof. eexists. apply get_sample_names_iter_ok. Qed.

(** C2: with fewer than two read suffixes [is_paired] raises [IndexError] on
    a file list that is not empty, where [get_sample_names] returns. *)
Theorem is_paired_short_reads_raises :
  is_paired ["a.fastq.gz"] ".fastq.gz" [] = Raise IndexError ∧
  is_paired ["a.fastq.gz"] ".fastq.gz" ["_R1"] = Raise IndexError ∧
  get_sample_names ["a.fastq.gz"] ".fastq.gz" [] = Ok ["a"] ∧
  get_sample_names ["a_R1.fastq.gz"] ".fastq.gz" ["_R1"] = Ok ["a_R1"].
Proof. repeat split; vm_compute; reflexivity. Qed.

(** C5: on the empty list of files no name is returned and the files are not
    paired, whatever the extension and the read suffixes. *)
Theorem empty_input ext reads :
  get_sample_names [] ext reads = Ok [] ∧ is_paired [] ext reads = Ok false.
Proof. split; [apply get_sample_names_nil | reflexivity]. Qed.


Example get_sample_names_pair :
  get_sample_names ["a_R1.fastq.gz"; "a_R2.fastq.gz"] ".fastq.gz" ["_R1"; "_R2"]
  = Ok ["a"].
Proof. vm_compute. reflexivity. Qed.

Example get_sample_names_single :
  get_sample_names ["d/b.fastq.gz"; "/x/y/a.fastq.gz"] ".fastq.gz" ["_R1"; "_R2"]
  = Ok ["a"; "b"].
Proof. vm_compute. reflexivity. Qed.

Example is_paired_pair :
  is_paired ["a_R1.fastq.gz"; "a_R2.fastq.gz"] ".fastq.gz" ["_R1"; "_R2"]
  = Ok true.
Proof. vm_compute. reflexivity. Qed.

Example is_paired_single :
  is_paired ["a.fastq.gz"; "b.fastq.gz"] ".fastq.gz" ["_R1"; "_R2"] = Ok false.
Proof. vm_compute. reflexivity. Qed.

Example is_paired_mixed :
  is_paired ["a.fastq.gz"; "b_R1.fastq.gz"; "b_R2.fastq.gz"] ".fastq.gz"
            ["_R1"; "_R2"] = Ok true.
Proof. vm_compute. reflexivity. Qed.

Example is_paired_triple :
  is_paired ["x/b_R1.fastq.gz"; "y/b_R1.fastq.gz"; "b_R2.fastq.gz"] ".fastq.gz"
            ["_R1"; "_R2"] = Ok false.
Proof. vm_compute. reflexivity. Qed.

(** A read suffix that is not a well-formed pattern. *)
Example is_paired_unbalanced :
  is_paired ["ax.fastq.gz"] ".fastq.gz" ["("; "x"] = Raise ReError.
Proof. vm_compute. reflexivity. Qed.

(** * Further properties of the module *)

(** ** File names *)

Lemma has_slash_basename p : has_slash (basename p) = false.
Proof.
  induction p as [|c p IH]; [done|]. cbn [basename].
  destruct (Ascii.eqb c slash || has_slash p) eqn:Hc; [done|].
  exact Hc.
Qed.

Lemma has_slash_app a b : has_slash (a +:+ b) = has_slash a || has_slash b.
Proof.
  induction a as [|c a IH]; [done|]. rewrite string_app_cons. simpl.
  by rewrite IH, orb_assoc.
Qed.

Lemma basename_no_slash p : has_slash p = false → basename p = p.
Proof. destruct p as [|c p]; [done|]. simpl. by intros ->. Qed.

Lemma basename_of_file dir file :
  has_slash file = false → basename (dir +:+ "/" +:+ file) = file.
Proof.
  intros Hfile. induction dir as [|c dir IH].
  - rewrite string_app_nil_l. change ("/" +:+ file) with (String "/" file).
    cbn [basename]. change (Ascii.eqb "/" slash) with true.
    by apply basename_no_slash.
  - rewrite string_app_cons. cbn [basename]. rewrite has_slash_app.
    change (has_slash ("/" +:+ file)) with true. by rewrite !orb_true_r.
Qed.

(** X8: the directory a file lies in has no effect on the name of its
    sample nor on the key [is_paired] files it under. *)
Theorem sample_name_ignores_directory dir file ext reads :
  has_slash file = false →
  sample_name (dir +:+ "/" +:+ file) ext reads = sample_name file ext reads ∧
  bname_of ext reads (dir +:+ "/" +:+ file) = bname_of ext reads file.
Proof.
  intros Hfile. unfold sample_name, bname_of, strip_ext.
  by rewrite basename_of_file, (basename_no_slash file).
Qed.

Lemma sample_name_ignores_directory_witness :
  sample_name ("/data/run1" +:+ "/" +:+ "a_R1.fastq.gz") ".fastq.gz"
              ["_R1"; "_R2"]
  = sample_name "a_R1.fastq.gz" ".fastq.gz" ["_R1"; "_R2"] ∧
  bname_of ".fastq.gz" ["_R1"; "_R2"] ("/data/run1" +:+ "/" +:+ "a_R1.fastq.gz")
  = bname_of ".fastq.gz" ["_R1"; "_R2"] "a_R1.fastq.gz".
Proof. apply sample_name_ignores_directory. reflexivity. Defined.

Lemma replace_empty_nil s : replace_empty "" s = s.
Proof. induction s as [|c s IH]; [done|]. simpl. by rewrite IH. Qed.

Lemma has_slash_replace_scan old skip s :
  has_slash s = false → has_slash (replace_scan old "" skip s) = false.
Proof.
  revert skip. induction s as [|c s IH]; intros skip Hs; [done|].
  simpl in Hs. apply orb_false_iff in Hs as [Hc Hs].
  cbn [replace_scan]. destruct skip as [|skip]; [|by apply IH].
  destruct (String.prefix old (String c s)).
  - rewrite string_app_nil_l. by apply IH.
  - simpl. by rewrite Hc, IH.
Qed.

Lemma has_slash_py_replace old s :
  has_slash s = false → has_slash (py_replace old "" s) = false.
Proof.
  intros Hs. destruct old as [|c old].
  - simpl. by rewrite replace_empty_nil.
  - by apply has_slash_replace_scan.
Qed.

Lemma has_slash_name_of x ext reads : has_slash (name_of x ext reads) = false.
Proof.
  unfold name_of, strip_ext.
  destruct reads as [|r0 [|r1 reads]];
    repeat apply has_slash_py_replace; apply has_slash_basename.
Qed.

Lemma elem_of_sample_names (set_iter : gset string → list string) infiles
    ext reads n :
  (∀ X, set_iter X ≡ₚ elements X) →
  n ∈ sorted (set_iter (list_to_set ((λ x, name_of x ext reads) <$> infiles)))
  ↔ ∃ x, x ∈ infiles ∧ name_of x ext reads = n.
Proof.
  intros Hiter. unfold sorted.
  rewrite merge_sort_Permutation, Hiter, elem_of_elements, elem_of_list_to_set,
    list_elem_of_fmap.
  naive_solver.
Qed.

(** X1: the names returned are exactly the names computed for the files:
    every file puts its name in the result and nothing else is in it. *)
Theorem get_sample_names_elem_of infiles ext reads :
  ∃ names, get_sample_names infiles ext reads = Ok names ∧
           ∀ n, n ∈ names ↔ ∃ x, x ∈ infiles ∧ sample_name x ext reads = Ok n.
Proof.
  eexists. split; [apply get_sample_names_iter_ok|]. intros n.
  rewrite elem_of_sample_names by done.
  split; intros (x & Hx & Hn); exists x; (split; [done|]);
    rewrite sample_name_ok in *; congruence.
Qed.

(** X2: listing a file twice or in another place changes nothing: two lists
    with the same files give the same names. *)
Theorem get_sample_names_same_files infiles1 infiles2 ext reads :
  (∀ x, x ∈ infiles1 ↔ x ∈ infiles2) →
  get_sample_names infiles1 ext reads = get_sample_names infiles2 ext reads.
Proof.
  intros Hsame. unfold get_sample_names. rewrite !get_sample_names_iter_ok.
  do 3 f_equal. apply set_eq. intros n.
  rewrite !elem_of_list_to_set, !list_elem_of_fmap. naive_solver.
Qed.

Lemma get_sample_names_same_files_witness :
  get_sample_names ["b_R1.fq"; "a_R1.fq"; "b_R1.fq"] ".fq" ["_R1"; "_R2"]
  = get_sample_names ["a_R1.fq"; "b_R1.fq"] ".fq" ["_R1"; "_R2"].
Proof.
  apply get_sample_names_same_files. intros x.
  rewrite !elem_of_cons. naive_solver.
Defined.

(** X3: no name returned contains a path separator. *)
Theorem get_sample_names_no_slash infiles ext reads :
  ∃ names, get_sample_names infiles ext reads = Ok names ∧
           Forall (λ n, has_slash n = false) names.
Proof.
  eexists. split; [apply get_sample_names_iter_ok|].
  apply Forall_forall. intros n Hn.
  apply elem_of_sample_names in Hn as (x & _ & <-); [|done].
  apply has_slash_name_of.
Qed.

(** ** Names without the extension or a read suffix *)

Lemma replace_scan_absent old new s :
  occurs old s = false → replace_scan old new 0 s = s.
Proof.
  unfold occurs. induction s as [|c s IH]; [done|].
  cbn [String.length occurs_before replace_scan].
  intros [-> Hs]%orb_false_iff. by rewrite IH.
Qed.

Lemma py_replace_absent old s : occurs old s = false → py_replace old "" s = s.
Proof.
  intros Hocc. destruct old as [|c old].
  - simpl. apply replace_empty_nil.
  - by apply replace_scan_absent.
Qed.

Lemma prefix_app_mono old s t :
  String.prefix old s = true → String.prefix old (s +:+ t) = true.
Proof.
  revert s. induction old as [|c old IH]; intros [|d s];
    rewrite ?string_app_cons; simpl; try done.
  - by destruct t.
  - destruct (ascii_dec c d); [|done]. apply IH.
Qed.

Lemma occurs_before_app old n s t :
  n ≤ String.length s →
  occurs_before old n (s +:+ t) = false → occurs_before old n s = false.
Proof.
  revert s. induction n as [|n IH]; intros [|c s] Hn; try done;
    try (simpl in Hn; lia).
  rewrite string_app_cons. cbn [occurs_before].
  intros [Hp Hocc]%orb_false_iff.
  apply orb_false_iff. split; [|apply IH; [simpl in Hn; lia|done]].
  destruct (String.prefix old (String c s)) eqn:Hs; [|done].
  pose proof (prefix_app_mono _ _ t Hs) as Hp'. rewrite string_app_cons in Hp'.
  congruence.
Qed.

Lemma py_replace_last old a :
  old ≠ "" → occurs_before old (String.length a) (a +:+ old) = false →
  py_replace old "" (a +:+ old) = a.
Proof.
  intros Hold Hocc.
  rewrite <- (string_app_nil_r old) at 2. rewrite <- (string_app_nil_r old) in Hocc at 2.
  rewrite py_replace_first by done. rewrite string_app_nil_l.
  destruct old; [done|]. simpl. apply string_app_nil_r.
Qed.

(** X4: a file whose base name contains neither the extension nor a read
    suffix is named by its whole base name. *)
Theorem sample_name_unmatched x ext r0 r1 rest :
  occurs ext (basename x) = false →
  occurs r0 (basename x) = false →
  occurs r1 (basename x) = false →
  sample_name x ext (r0 :: r1 :: rest) = Ok (basename x).
Proof.
  intros Hext H0 H1. rewrite sample_name_ok. unfold name_of, strip_ext.
  by rewrite (py_replace_absent ext), (py_replace_absent r0),
    (py_replace_absent r1).
Qed.

Lemma sample_name_unmatched_witness :
  sample_name "/data/notes.txt" ".fastq.gz" ["_R1"; "_R2"]
  = Ok (basename "/data/notes.txt").
Proof. apply sample_name_unmatched; reflexivity. Defined.

(** X5: the two mates of a sample get one and the same name. The file names
    are [p], a read suffix and the extension, each occurring where it is
    expected only. *)
Theorem mates_share_name f0 f1 ext r0 r1 rest p :
  ext ≠ "" → r0 ≠ "" → r1 ≠ "" →
  basename f0 = p +:+ r0 +:+ ext →
  basename f1 = p +:+ r1 +:+ ext →
  occurs_before ext (String.length (p +:+ r0)) (p +:+ r0 +:+ ext) = false →
  occurs_before ext (String.length (p +:+ r1)) (p +:+ r1 +:+ ext) = false →
  occurs_before r0 (String.length p) (p +:+ r0) = false →
  occurs_before r1 (String.length p) (p +:+ r1) = false →
  occurs r0 (p +:+ r1) = false →
  get_sample_names [f0; f1] ext (r0 :: r1 :: rest) = Ok [p].
Proof.
  intros Hext Hr0 Hr1 Hf0 Hf1 He0 He1 H0 H1 H01.
  unfold get_sample_names. rewrite get_sample_names_iter_ok.
  cbn [fmap list_fmap]. unfold name_of, strip_ext. rewrite Hf0, Hf1.
  rewrite <- !string_app_assoc in *.
  rewrite !(py_replace_last ext) by done.
  rewrite (py_replace_last r0) by done.
  rewrite (py_replace_absent r0 (p +:+ r1)) by done.
  rewrite (py_replace_last r1) by done.
  rewrite (py_replace_absent r1 p)
    by (apply (occurs_before_app _ _ _ r1); [lia|done]).
  f_equal. unfold sorted.
  assert (list_to_set [p; p] = ({[p]} : gset string)) as -> by set_solver.
  by rewrite elements_singleton.
Qed.

Lemma mates_share_name_witness :
  get_sample_names ["/run/wt_rep1_R1.fastq.gz"; "/run/wt_rep1_R2.fastq.gz"]
                   ".fastq.gz" ["_R1"; "_R2"]
  = Ok ["wt_rep1"].
Proof.
  apply (mates_share_name _ _ ".fastq.gz" "_R1" "_R2" [] "wt_rep1");
    (discriminate || reflexivity).
Defined.

(** ** The grouping of [is_paired], for any read suffixes *)

Lemma record_infile_bname (ext : string) (reads : list string)
    (infile : string) (dic : pairing) :
  record_infile ext reads infile dic
  = (b ← bname_of ext reads infile;
     Ok (match b with
         | Some key => add_file key infile dic
         | None => dic
         end)).
Proof.
  unfold record_infile, bname_of, add_file.
  destruct (py_index reads 0) as [r0| |]; [|done..]. simpl.
  destruct (py_index reads 1) as [r1| |]; [|done..]. simpl.
  destruct (re_match _ _) as [[groups|]| |]; try done. simpl.
  by destruct (dic !! (groups !! 1)).
Qed.

(** The pattern is the same for every file, so a failure to build it is the
    same for every file. *)
Lemma bname_of_uniform ext reads :
  (∀ infile, ∃ b, bname_of ext reads infile = Ok b) ∨
  (∃ e, ∀ infile, bname_of ext reads infile = Raise e) ∨
  (∀ infile, bname_of ext reads infile = NotModelled).
Proof.
  unfold bname_of, re_match.
  destruct (py_index reads 0) as [r0|e|]; simpl; [|right; left; by exists e|by auto].
  destruct (py_index reads 1) as [r1|e|]; simpl; [|right; left; by exists e|by auto].
  destruct (parse (read_pattern r0 r1)) as [r|e|]; simpl;
    [left; eauto|right; left; by exists e|by auto].
Qed.

Lemma for_each_record_keyed (ext : string) (reads infiles : list string)
    (dic : pairing) :
  (∀ infile, ∃ b, bname_of ext reads infile = Ok b) →
  ∃ dic', for_each infiles (record_infile ext reads) dic = Ok dic' ∧
          ∀ key, dic' !! key
                 = extend (dic !! key) (keyed_group ext reads infiles key).
Proof.
  intros Hok. revert dic. induction infiles as [|infile infiles IH]; intros dic.
  - by exists dic.
  - cbn [for_each]. rewrite record_infile_bname.
    destruct (Hok infile) as [b Hb]. rewrite Hb. simpl.
    destruct (IH (match b with
                  | Some key => add_file key infile dic
                  | None => dic
                  end)) as (dic' & -> & Hdic').
    exists dic'. split; [done|]. intros key. rewrite Hdic'.
    unfold keyed_group. rewrite filter_cons, Hb.
    destruct b as [key'|].
    + rewrite add_file_lookup. destruct (decide (key' = key)) as [->|Hne].
      * rewrite decide_True by done. unfold extend.
        destruct (filter _ infiles); [done|]. simpl. by rewrite <- app_assoc.
      * by rewrite decide_False by congruence.
    + by rewrite decide_False.
Qed.

Lemma group_files_keyed (ext : string) (reads infiles : list string) :
  (∀ infile, ∃ b, bname_of ext reads infile = Ok b) →
  ∃ dic, group_files infiles ext reads = Ok dic ∧
         ∀ key, dic !! key = match keyed_group ext reads infiles key with
                             | [] => None
                             | files => Some files
                             end.
Proof.
  intros Hok.
  destruct (for_each_record_keyed ext reads infiles ∅ Hok) as (dic & Hdic & Hkey).
  exists dic. split; [done|]. intros key. rewrite Hkey, lookup_empty.
  unfold extend. by destruct (keyed_group ext reads infiles key).
Qed.

Lemma keyed_group_length_perm ext reads infiles1 infiles2 key :
  infiles1 ≡ₚ infiles2 →
  length (keyed_group ext reads infiles1 key)
  = length (keyed_group ext reads infiles2 key).
Proof. intros Hperm. unfold keyed_group. by rewrite Hperm. Qed.

Lemma is_paired_keyed (ext : string) (reads infiles : list string) :
  (∀ infile, ∃ b, bname_of ext reads infile = Ok b) →
  ∃ paired, is_paired infiles ext reads = Ok paired ∧
    (paired = true ↔
       (∃ key, length (keyed_group ext reads infiles key) = 2) ∧
       (∀ key, length (keyed_group ext reads infiles key) ≤ 2)).
Proof.
  intros Hok. destruct (group_files_keyed ext reads infiles Hok)
    as (dic & Hdic & Hkey).
  eexists. split; [by apply is_paired_max|].
  rewrite bool_decide_eq_true, max_group_size. split.
  - intros [(key & files & Hfiles & Hlen) Hle]. split.
    + exists key. rewrite Hkey in Hfiles.
      destruct (keyed_group ext reads infiles key); [done|]. congruence.
    + intros key'. specialize (Hle key'). rewrite Hkey in Hle.
      destruct (keyed_group ext reads infiles key'); [simpl; lia|]. by apply Hle.
  - intros [(key & Hlen) Hle]. split.
    + exists key, (keyed_group ext reads infiles key). split; [|done].
      rewrite Hkey. by destruct (keyed_group ext reads infiles key).
    + intros key' files. rewrite Hkey. specialize (Hle key').
      destruct (keyed_group ext reads infiles key'); [done|]. by intros [= <-].
Qed.

Lemma is_paired_failure (ext : string) (reads : list string) infile infiles
    (failure : result (option (option string))) :
  (∀ infile, bname_of ext reads infile = failure) →
  (∀ b, failure ≠ Ok b) →
  is_paired (infile :: infiles) ext reads
  = match failure with
    | Raise e => Raise e
    | _ => NotModelled
    end.
Proof.
  intros Hfail Hnok. unfold is_paired, group_files. cbn [for_each].
  rewrite record_infile_bname, Hfail.
  destruct failure as [b|e|]; [by destruct (Hnok b)|done..].
Qed.

(** X6: the verdict of [is_paired], or the way it fails, does not depend on
    the order of the files. *)
Theorem is_paired_permutation infiles1 infiles2 ext reads :
  infiles1 ≡ₚ infiles2 →
  is_paired infiles1 ext reads = is_paired infiles2 ext reads.
Proof.
  intros Hperm.
  destruct (bname_of_uniform ext reads) as [Hok|[[e He]|Hnm]].
  - destruct (is_paired_keyed ext reads infiles1 Hok) as (b1 & -> & H1).
    destruct (is_paired_keyed ext reads infiles2 Hok) as (b2 & -> & H2).
    f_equal. apply eq_bool_prop_intro. rewrite !Is_true_true, H1, H2.
    by setoid_rewrite (keyed_group_length_perm ext reads _ _ _ Hperm).
  - destruct infiles1 as [|f1 infiles1].
    + by apply Permutation_nil_l in Hperm as ->.
    + destruct infiles2 as [|f2 infiles2];
        [by apply Permutation_nil_r in Hperm|].
      by rewrite !(is_paired_failure ext reads _ _ (Raise e)).
  - destruct infiles1 as [|f1 infiles1].
    + by apply Permutation_nil_l in Hperm as ->.
    + destruct infiles2 as [|f2 infiles2];
        [by apply Permutation_nil_r in Hperm|].
      by rewrite !(is_paired_failure ext reads _ _ NotModelled).
Qed.

Lemma is_paired_permutation_witness :
  is_paired ["a_R1.fq"; "b.fq"; "a_R2.fq"] ".fq" ["_R1"; "_R2"]
  = is_paired ["a_R2.fq"; "a_R1.fq"; "b.fq"] ".fq" ["_R1"; "_R2"].
Proof.
  apply is_paired_permutation.
  symmetry. exact (Permutation_cons_append ["a_R1.fq"; "b.fq"] "a_R2.fq").
Defined.

(** ** Merging and comparing configuration dictionaries *)

Section MergeProperties.
Context {V : Type}.
Variable py_ne : V → V → bool.

Lemma dict_update_lookup (z y : gmap string V) k :
  dict_update z y !! k = match y !! k with
                         | Some v => Some v
                         | None => z !! k
                         end.
Proof.
  unfold dict_update.
  apply (map_fold_weak_ind (λ r (m : gmap string V),
    r !! k = match m !! k with Some v => Some v | None => z !! k end)).
  - by rewrite lookup_empty.
  - intros i v m r Hi IH. destruct (decide (i = k)) as [->|Hne].
    + by rewrite !lookup_insert_eq.
    + by rewrite !lookup_insert_ne.
Qed.

Lemma config_diff_get (dict1 dict2 : gmap string V) k :
  config_diff py_ne dict1 dict2 !! k
  = match dict1 !! k, dict2 !! k with
    | Some v, Some v2 => if py_ne v v2 then Some v else None
    | Some v, None => Some v
    | None, _ => None
    end.
Proof.
  unfold config_diff. revert dict1.
  apply (map_fold_weak_ind (λ diff (m : gmap string V),
    diff !! k = match m !! k, dict2 !! k with
                | Some v, Some v2 => if py_ne v v2 then Some v else None
                | Some v, None => Some v
                | None, _ => None
                end)).
  - by rewrite !lookup_empty.
  - intros i x m diff Hi IH. destruct (decide (i = k)) as [->|Hik].
    + rewrite lookup_insert_eq. rewrite Hi in IH.
      destruct (dict2 !! k) as [v2|]; [destruct (py_ne x v2)|];
        by rewrite ?lookup_insert_eq.
    + rewrite (lookup_insert_ne m) by done. rewrite <- IH.
      destruct (dict2 !! i) as [v2|]; [destruct (py_ne x v2)|];
        by rewrite ?lookup_insert_ne.
Qed.

(** X7: in the merged dictionary the entries of [y] win and the other
    entries of [x] are kept; a missing or empty [y] gives [x] back. *)
Theorem merge_dicts_lookup (x : gmap string V) (y : option (gmap string V)) k :
  merge_dicts x y !! k
  = match y with
    | Some d => match d !! k with
                | Some v => Some v
                | None => x !! k
                end
    | None => x !! k
    end.
Proof.
  unfold merge_dicts. destruct y as [d|]; [|done].
  case_bool_decide as Hd; [apply dict_update_lookup|].
  assert (d = ∅) as -> by (by destruct (decide (d = ∅))).
  by rewrite lookup_empty.
Qed.

(** X9: when [!=] is false on equal values only, putting the difference of
    [dict1] from [dict2] on top of [dict2] gives what putting the whole of
    [dict1] on top of it gives. *)
Theorem merge_config_diff (dict1 dict2 : gmap string V) :
  (∀ v v2, py_ne v v2 = false → v = v2) →
  merge_dicts dict2 (Some (config_diff py_ne dict1 dict2))
  = merge_dicts dict2 (Some dict1).
Proof.
  intros Hne. apply map_eq. intros k.
  assert (∀ d : gmap string V,
            merge_dicts dict2 (Some d) !! k
            = match d !! k with Some v => Some v | None => dict2 !! k end)
    as Hget.
  { intros d. unfold merge_dicts.
    case_bool_decide as Hd; [apply dict_update_lookup|].
    assert (d = ∅) as -> by (by destruct (decide (d = ∅))).
    by rewrite lookup_empty. }
  rewrite !Hget, config_diff_get.
  destruct (dict1 !! k) as [v|]; [|done].
  destruct (dict2 !! k) as [v2|]; [|done].
  destruct (py_ne v v2) eqn:Hv; [done|]. by rewrite (Hne v v2 Hv).
Qed.

(** X10: when no value differs from itself, a dictionary has no difference
    from itself. *)
Theorem config_diff_self (dict : gmap string V) :
  (∀ v, py_ne v v = false) → config_diff py_ne dict dict = ∅.
Proof.
  intros Hrefl. apply map_eq. intros k.
  rewrite config_diff_get, lookup_empty.
  destruct (dict !! k) as [v|]; [|done]. by rewrite Hrefl.
Qed.

(** X11: compared with the empty dictionary, everything is different. *)
Theorem config_diff_empty_r (dict : gmap string V) :
  config_diff py_ne dict ∅ = dict.
Proof.
  apply map_eq. intros k. rewrite config_diff_get, lookup_empty.
  by destruct (dict !! k).
Qed.

(** X12: cleaning a dictionary a second time changes nothing. *)
Theorem sanity_dict_clean_idempotent (myDict : option (gmap string V)) :
  sanity_dict_clean (sanity_dict_clean myDict) = sanity_dict_clean myDict.
Proof.
  destruct myDict as [d|]; [|done]. rewrite !sanity_dict_clean_delete.
  f_equal. apply map_eq. intros k.
  destruct (decide (k = "workflow")) as [->|Hw];
    [by rewrite !lookup_delete_eq|].
  rewrite (lookup_delete_ne _ "workflow") by done.
  destruct (decide (k = "maindir")) as [->|Hm].
  - rewrite lookup_delete_eq. by rewrite lookup_delete_ne, lookup_delete_eq.
  - by rewrite !lookup_delete_ne.
Qed.
End MergeProperties.

Lemma merge_config_diff_witness :
  merge_dicts ({["a" := 1; "b" := 2]} : gmap string nat)
    (Some (config_diff (λ v v2, negb (v =? v2))
             {["a" := 1; "b" := 3; "c" := 4]} {["a" := 1; "b" := 2]}))
  = merge_dicts {["a" := 1; "b" := 2]} (Some {["a" := 1; "b" := 3; "c" := 4]}).
Proof.
  apply merge_config_diff. intros v v2 Hv.
  apply negb_false_iff in Hv. by apply Nat.eqb_eq.
Defined.

Lemma config_diff_self_witness :
  config_diff (λ v v2, negb (v =? v2)) ({["a" := 1; "b" := 2]} : gmap string nat)
              {["a" := 1; "b" := 2]} = ∅.
Proof.
  apply config_diff_self. intros v. by rewrite Nat.eqb_refl.
Defined.

(** ** Joining paths and loading files *)

Lemma join_step_absolute path b :
  String.prefix "/" b = true → join_step path b = b.
Proof. unfold join_step. by intros ->. Qed.

(** A component that starts with a slash makes [os.path.join] forget
    everything before it. *)
Lemma path_join_absolute a before b after :
  String.prefix "/" b = true →
  path_join a (before ++ b :: after) = path_join b after.
Proof.
  intros Hb. unfold path_join. rewrite foldl_app. cbn [foldl].
  by rewrite join_step_absolute.
Qed.

Section LoadingProperties.
Context {V : Type}.
Variable format : V → string.
Variable str_value : string → V.
Variable isfile : string → bool.
Variable read_yaml : string → gmap string V.

(** X13: [load_paths] always returns; in its result ['workflow_tools'] is the
    tools directory under [maindir], whatever the file says, the keys
    ['maindir'] and ['workflow'] are absent and every other key is as in the
    file. *)
Theorem load_paths_lookup pathfile maindir verbose :
  ∃ paths,
    (load_paths format str_value read_yaml pathfile maindir verbose).1
    = Done paths ∧
    ∀ k, paths !! k
         = if decide (k = "workflow_tools")
           then Some (str_value (path_join maindir ["shared"; "tools"]))
           else if decide (k = "maindir" ∨ k = "workflow") then None
           else read_yaml pathfile !! k.
Proof.
  unfold load_paths, load_configfile. cbn [fst snd].
  rewrite sanity_dict_clean_delete. eexists. split; [done|]. intros k.
  destruct (decide (k = "workflow_tools")) as [->|Ht].
  - by rewrite lookup_insert_eq.
  - rewrite lookup_insert_ne by done. case_decide as Hk.
    + destruct Hk as [-> | ->].
      * by rewrite lookup_delete_ne, lookup_delete_eq.
      * by rewrite lookup_delete_eq.
    + rewrite !lookup_delete_ne; [done|naive_solver..].
Qed.


(** X15: [load_organism_data] stops exactly when neither the file of the
    shared organisms nor [genome] itself is a file, with a message naming the
    genome and nothing printed; otherwise it returns a dictionary without
    ['maindir'] and ['workflow']. *)
Theorem load_organism_data_outcome genome maindir verbose :
  match load_organism_data format isfile read_yaml genome maindir verbose with
  | (Done (Some organism), _) =>
      organism !! "maindir" = None ∧ organism !! "workflow" = None ∧
      (isfile (path_join maindir ["shared"; "organisms"; genome +:+ ".yaml"])
       || isfile genome) = true
  | (Done None, _) => False
  | (Stop s, printed) =>
      isfile (path_join maindir ["shared"; "organisms"; genome +:+ ".yaml"])
      = false ∧ isfile genome = false ∧ printed = [] ∧
      s = SystemExit (ExitMessage
            ("ERROR: Genome configuration file NOT found for: " +:+ genome
             +:+ String "010" ""))
  end.
Proof.
  unfold load_organism_data, load_configfile.
  rewrite !sanity_dict_clean_delete.
  destruct (isfile (path_join _ _)); [|destruct (isfile genome)];
    cbn [orb]; try done;
    by rewrite lookup_delete_ne, !lookup_delete_eq.
Qed.
End LoadingProperties.


(** ** [get_fragment_length] *)

Section FragmentProperties.
Variable int_float : string → Z + stop.

Lemma get_fragment_length_skip infile pre lines sampleName :
  Forall (λ line, String.prefix (row_start sampleName) (py_strip line) = false)
         pre →
  get_fragment_length int_float infile (pre ++ lines) sampleName
  = get_fragment_length int_float infile lines sampleName.
Proof.
  induction 1 as [|line pre Hline _ IH]; [done|].
  cbn [app get_fragment_length]. unfold row_start in Hline. by rewrite Hline.
Qed.

(** X16: the first row of the sample decides: the rows before it are passed
    over and the rows after it are never looked at. *)
Theorem get_fragment_length_first_row infile pre line post sampleName :
  Forall (λ line, String.prefix (row_start sampleName) (py_strip line) = false)
         pre →
  String.prefix (row_start sampleName) (py_strip line) = true →
  get_fragment_length int_float infile (pre ++ line :: post) sampleName
  = get_fragment_length int_float infile [line] sampleName.
Proof.
  intros Hpre Hline. rewrite get_fragment_length_skip by done.
  cbn [get_fragment_length]. unfold row_start in Hline. by rewrite Hline.
Qed.

(** X17: when no row is a row of the sample, the call prints that the file
    is not an output of bamPEFragmentSize and exits with status 1. *)
Theorem get_fragment_length_no_row infile lines sampleName :
  Forall (λ line, String.prefix (row_start sampleName) (py_strip line) = false)
         lines →
  get_fragment_length int_float infile lines sampleName
  = (Stop (SystemExit (ExitCode 1)), [not_bamPE infile]).
Proof.
  intros Hlines. rewrite <- (app_nil_r lines).
  by rewrite get_fragment_length_skip.
Qed.

(** X18: when the first row of the sample has fewer than six columns the
    call raises [IndexError]; nothing is printed. *)
Theorem get_fragment_length_short_row infile pre line post sampleName :
  Forall (λ line, String.prefix (row_start sampleName) (py_strip line) = false)
         pre →
  String.prefix (row_start sampleName) (py_strip line) = true →
  length (py_split (py_strip line)) < 6 →
  get_fragment_length int_float infile (pre ++ line :: post) sampleName
  = (Stop (Uncaught IndexError), []).
Proof.
  intros Hpre Hline Hlen. rewrite get_fragment_length_skip by done.
  cbn [get_fragment_length]. unfold row_start in Hline. rewrite Hline.
  by rewrite lookup_ge_None_2 by lia.
Qed.

Lemma prefix_app_l a b s :
  String.prefix (a +:+ b) s = true → String.prefix a s = true.
Proof.
  revert s. induction a as [|c a IH]; intros s.
  - by destruct s.
  - rewrite string_app_cons. destruct s as [|d s]; [done|]. simpl.
    destruct (ascii_dec c d); [|done]. apply IH.
Qed.

Lemma prefix_false_app a b s :
  String.prefix a s = false → String.prefix (a +:+ b) s = false.
Proof.
  intros Ha. destruct (String.prefix (a +:+ b) s) eqn:Hab; [|done].
  apply prefix_app_l in Hab. congruence.
Qed.

(** X19: rows are recognised by their beginning, so when the first row that
    begins like the row of [sampleName] is the row of a longer sample name,
    the value of that other sample is returned. *)
Theorem get_fragment_length_longer_name infile pre line post sampleName more :
  Forall (λ line, String.prefix (row_start sampleName) (py_strip line) = false)
         pre →
  String.prefix (row_start (sampleName +:+ more)) (py_strip line) = true →
  get_fragment_length int_float infile (pre ++ line :: post) sampleName
  = get_fragment_length int_float infile (pre ++ line :: post)
                        (sampleName +:+ more).
Proof.
  intros Hpre Hline.
  assert (String.prefix (row_start sampleName) (py_strip line) = true) as Hshort.
  { unfold row_start in *. rewrite <- string_app_assoc in Hline.
    by apply prefix_app_l in Hline. }
  assert (Forall (λ line, String.prefix (row_start (sampleName +:+ more))
                                        (py_strip line) = false) pre) as Hpre'.
  { eapply Forall_impl; [exact Hpre|]. intros l Hl. unfold row_start in *.
    rewrite <- string_app_assoc. by apply prefix_false_app. }
  rewrite !get_fragment_length_skip by done.
  cbn [get_fragment_length]. unfold row_start in *. by rewrite Hshort, Hline.
Qed.
End FragmentProperties.

Lemma get_fragment_length_first_row_witness :
  get_fragment_length (λ _, inl 187%Z) "frag.tsv"
    (["header"] ++ "filtered_bam/s1.bam 1 2 3 4 187.0" :: ["filtered_bam/s1.bam x"])
    "s1"
  = get_fragment_length (λ _, inl 187%Z) "frag.tsv"
      ["filtered_bam/s1.bam 1 2 3 4 187.0"] "s1".
Proof.
  apply get_fragment_length_first_row; [|reflexivity].
  repeat constructor.
Defined.

Lemma get_fragment_length_no_row_witness :
  get_fragment_length (λ _, inl 187%Z) "frag.tsv"
    ["header"; "filtered_bam/s2.bam 1 2 3 4 187.0"] "s1"
  = (Stop (SystemExit (ExitCode 1)), [not_bamPE "frag.tsv"]).
Proof. apply get_fragment_length_no_row. repeat constructor. Defined.

Lemma get_fragment_length_short_row_witness :
  get_fragment_length (λ _, inl 187%Z) "frag.tsv"
    (["header"] ++ "filtered_bam/s1.bam 1 2 3" :: []) "s1"
  = (Stop (Uncaught IndexError), []).
Proof.
  apply get_fragment_length_short_row;
    [repeat constructor | reflexivity | vm_compute; lia].
Defined.

Lemma get_fragment_length_longer_name_witness :
  get_fragment_length (λ _, inl 187%Z) "frag.tsv"
    (["header"] ++ "filtered_bam/s10.bam 1 2 3 4 187.0"
       :: ["filtered_bam/s1.bam 1 2 3 4 250.0"]) "s1"
  = get_fragment_length (λ _, inl 187%Z) "frag.tsv"
      (["header"] ++ "filtered_bam/s10.bam 1 2 3 4 187.0"
         :: ["filtered_bam/s1.bam 1 2 3 4 250.0"]) ("s1" +:+ "0").
Proof.
  apply get_fragment_length_longer_name; [|reflexivity].
  repeat constructor.
Defined.

(** ** [check_sample_info_header] *)

Lemma py_split_from_word cur w rest :
  no_space w = true →
  py_split_from cur (w +:+ rest) = py_split_from (cur +:+ w) rest.
Proof.
  revert cur. induction w as [|c w IH]; intros cur Hw.
  - by rewrite string_app_nil_l, string_app_nil_r.
  - simpl in Hw. apply andb_true_iff in Hw as [Hc Hw].
    apply negb_true_iff in Hc.
    rewrite string_app_cons. cbn [py_split_from]. rewrite Hc, IH by done.
    by rewrite string_app_assoc.
Qed.

Lemma py_split_columns cols :
  Forall (λ col, col ≠ "" ∧ no_space col = true) cols →
  py_split (String.concat (String "009" "") cols +:+ String "010" "") = cols.
Proof.
  unfold py_split. induction 1 as [|col cols [Hne Hcol] Hcols IH]; [done|].
  destruct cols as [|col' cols].
  - cbn [String.concat]. rewrite py_split_from_word by done.
    rewrite string_app_nil_l. destruct col; [done|]. reflexivity.
  - change (String.concat (String "009" "") (col :: col' :: cols))
      with (col +:+ String "009" (String.concat (String "009" "") (col' :: cols))).
    rewrite string_app_assoc, py_split_from_word by done.
    rewrite string_app_nil_l, string_app_cons. cbn [py_split_from].
    change (py_isspace "009") with true. cbn iota. rewrite IH.
    by destruct col.
Qed.

(** X20: for a header line made of columns separated by tabs, none of them
    empty or with whitespace inside, the check holds exactly when both
    ['name'] and ['condition'] are among the columns, in any position. *)
Theorem check_sample_info_header_columns
    (check_output : string → option string) sample_info_file cols :
  Forall (λ col, col ≠ "" ∧ no_space col = true) cols →
  check_output ("cat " +:+ sample_info_file +:+ " | head -n1")
  = Some (String.concat (String "009" "") cols +:+ String "010" "") →
  check_sample_info_header check_output sample_info_file
  = Done (bool_decide ("name" ∈ cols) && bool_decide ("condition" ∈ cols)).
Proof.
  intros Hcols Hout. unfold check_sample_info_header.
  by rewrite Hout, py_split_columns.
Qed.

Lemma check_sample_info_header_columns_witness :
  check_sample_info_header
    (λ _, Some (String.concat (String "009" "") ["condition"; "batch"; "name"]
                +:+ String "010" ""))
    "sampleInfo.tsv"
  = Done (bool_decide ("name" ∈ ["condition"; "batch"; "name"])
          && bool_decide ("condition" ∈ ["condition"; "batch"; "name"])).
Proof.
  apply check_sample_info_header_columns; [|reflexivity].
  repeat constructor; discriminate.
Defined.

(** ** What [load_configfile] prints *)

Section PrintingProperties.
Context {V : Type}.
Variable format : V → string.

(** X21: in verbose mode [load_configfile] prints, between two heading
    lines and a closing line, one line for every key left in the dictionary,
    in ascending order of the keys; without [verbose] it prints nothing. *)
Theorem load_configfile_printed configfile (parsed : gmap string V) info :
  (load_configfile format configfile parsed false info).2 = [] ∧
  ∃ items,
    (load_configfile format configfile parsed true info).2
    = [String "010" "--- " +:+ info +:+ " " +:+ dashes 69;
       "config file: " +:+ configfile]
      ++ ((λ kv, kv.1 +:+ ": " +:+ format kv.2) <$> items)
      ++ [dashes 80 +:+ " " +:+ String "010" ""] ∧
    items ≡ₚ map_to_list (delete "workflow" (delete "maindir" parsed)) ∧
    Sorted (λ kv1 kv2 : string * V, String.le kv1.1 kv2.1) items.
Proof.
  split; [done|]. unfold load_configfile. cbn [snd].
  rewrite sanity_dict_clean_delete. cbn [default].
  eexists. split; [done|]. split.
  - apply merge_sort_Permutation.
  - assert (Total (λ kv1 kv2 : string * V, String.le kv1.1 kv2.1))
      by (intros kv1 kv2; apply (total String.le)).
    apply (Sorted_merge_sort (λ kv1 kv2 : string * V, String.le kv1.1 kv2.1)).
Qed.
End PrintingProperties.

(** ** [make_temp_dir] *)

Lemma py_rstrip_idemp s : py_rstrip (py_rstrip s) = py_rstrip s.
Proof.
  induction s as [|c s IH]; [done|]. cbn [py_rstrip].
  destruct (py_rstrip s) as [|d t] eqn:Ht.
  - destruct (py_isspace c) eqn:Hc; [done|]. simpl. by rewrite Hc.
  - cbn [py_rstrip]. cbn [py_rstrip] in IH. by rewrite IH.
Qed.

Lemma py_rstrip_split s :
  ∃ ws, s = py_rstrip s +:+ ws ∧ all_space ws = true.
Proof.
  induction s as [|c s (ws & Hs & Hws)]; [by exists ""|].
  cbn [py_rstrip]. destruct (py_rstrip s) as [|d t] eqn:Ht.
  - rewrite string_app_nil_l in Hs. subst ws.
    destruct (py_isspace c) eqn:Hc.
    + exists (String c s). split; [done|]. simpl. by rewrite Hc, Hws.
    + by exists s.
  - exists ws. split; [|done]. by rewrite string_app_cons, <- Hs.
Qed.

Lemma py_rstrip_end s : ends_in_space (py_rstrip s) = false.
Proof.
  induction s as [|c s IH]; [done|]. cbn [py_rstrip].
  destruct (py_rstrip s) as [|d t] eqn:Ht; [|exact IH].
  by destruct (py_isspace c) eqn:Hc; simpl; rewrite ?Hc.
Qed.

(** X22: the path returned by [make_temp_dir] is the output of [mktemp]
    (under the temp directory or, when that fails, under the fallback
    directory) without the whitespace that ends it, the newline for one,
    followed by a slash; the call exits, with status 1, only when [mktemp]
    fails under both directories. *)
Theorem make_temp_dir_path (check_output : string → option string)
    tempdir fallback_dir verbose :
  match (make_temp_dir check_output tempdir fallback_dir verbose).1 with
  | Done temp_path =>
      ∃ output p ws,
        (check_output (mktemp_command tempdir) = Some output ∨
         check_output (mktemp_command tempdir) = None ∧
         check_output (mktemp_command fallback_dir) = Some output) ∧
        output = p +:+ ws ∧ all_space ws = true ∧ ends_in_space p = false ∧
        temp_path = p +:+ "/"
  | Stop s =>
      s = SystemExit (ExitCode 1) ∧
      check_output (mktemp_command tempdir) = None ∧
      check_output (mktemp_command fallback_dir) = None
  end.
Proof.
  unfold make_temp_dir.
  destruct (check_output (mktemp_command tempdir)) as [output|] eqn:H1;
    [|destruct (check_output (mktemp_command fallback_dir)) as [output|] eqn:H2];
    cbn [fst]; try done;
    destruct (py_rstrip_split output) as (ws & Hout & Hws);
    exists output, (py_rstrip output), ws;
    (split; [by auto|]); (split; [done|]); (split; [done|]);
    (split; [apply py_rstrip_end|done]).
Qed.

(** ** The first group never captures the empty text *)

Lemma special_cases c :
  special c = true →
  c ∈ ["."; "\"; "["; "{"; "("; ")"; "*"; "+"; "?"; "^"; "$"; "|"]%char.
Proof.
  destruct c as [[] [] [] [] [] [] [] []]; try discriminate; intros _;
    repeat first [apply list_elem_of_here | apply list_elem_of_further].
Qed.

Lemma first_group_intact_seq_of items :
  Forall first_group_intact items → first_group_intact (seq_of items).
Proof. induction 1; simpl; auto. Qed.

Lemma first_group_intact_alt_of b bs :
  first_group_intact b → Forall first_group_intact bs →
  first_group_intact (alt_of b bs).
Proof. intros Hb Hbs. revert b Hb. induction Hbs; simpl; auto. Qed.

Lemma first_group_intact_close alts items :
  Forall first_group_intact alts → Forall first_group_intact items →
  first_group_intact (close alts items).
Proof.
  intros Halts Hitems. unfold close.
  assert (Forall first_group_intact (rev (seq_of (rev items) :: alts))) as Hall.
  { apply Forall_rev. constructor; [|done].
    by apply first_group_intact_seq_of, Forall_rev. }
  destruct Hall; [done|]. by apply first_group_intact_alt_of.
Qed.

Lemma first_group_intact_repeat_last q items items' :
  Forall first_group_intact items → repeat_last q items = Ok items' →
  Forall first_group_intact items'.
Proof.
  intros Hitems. destruct Hitems as [|[| a [] | | | | |] items _ Hitems];
    try discriminate.
  intros [= <-]. by constructor.
Qed.

(** Once the first group is read, what follows cannot touch it: later groups
    have other numbers and a quantifier after a group is not in the
    fragment. *)
Lemma parse_from_first_group_intact s :
  ∀ next alts items (stack : list frame) r,
    2 ≤ next →
    Forall first_group_intact alts → Forall first_group_intact items →
    Forall (λ fr : frame, 2 ≤ fr.1.1 ∧ Forall first_group_intact fr.1.2 ∧
                          Forall first_group_intact fr.2) stack →
    parse_from s next alts items stack = Ok r → first_group_intact r.
Proof.
  induction s as [|c s IH]; intros next alts items stack r Hnext Halts Hitems Hstack.
  - simpl. destruct stack; [|done]. intros [= <-].
    by apply first_group_intact_close.
  - destruct (special c) eqn:Hc.
    + apply special_cases in Hc.
      repeat (apply elem_of_cons in Hc as [->|Hc]); [..|by inv Hc].
      * cbn [parse_from]. apply IH; auto. by constructor.
      * done.
      * done.
      * done.
      * destruct s as [|d t].
        -- cbn [parse_from]. done.
        -- destruct (ascii_dec d "?") as [->|Hd]; [done|].
           rewrite parse_from_open by congruence.
           apply IH; auto with lia.
      * cbn [parse_from].
        destruct Hstack as [|[[i alts0] items0] stack [Hi [Halts0 Hitems0]] Hstack];
          [done|]. simpl in *.
        apply IH; auto. constructor; [|done]. simpl. split; [lia|].
        by apply first_group_intact_close.
      * cbn [parse_from].
        destruct (repeat_last QStar items) as [items'| |] eqn:Hrep; try done.
        simpl. apply IH; auto. by eapply first_group_intact_repeat_last.
      * cbn [parse_from].
        destruct (repeat_last QPlus items) as [items'| |] eqn:Hrep; try done.
        simpl. apply IH; auto. by eapply first_group_intact_repeat_last.
      * cbn [parse_from].
        destruct (repeat_last QOpt items) as [items'| |] eqn:Hrep; try done.
        simpl. apply IH; auto. by eapply first_group_intact_repeat_last.
      * cbn [parse_from]. apply IH; auto. by constructor.
      * cbn [parse_from]. apply IH; auto. by constructor.
      * cbn [parse_from]. apply IH; auto. constructor; [|done].
        by apply first_group_intact_seq_of, Forall_rev.
    + rewrite parse_from_plain by done. apply IH; auto. by constructor.
Qed.

Lemma parse_read_pattern_first_group r0 r1 r :
  parse (read_pattern r0 r1) = Ok r → first_group_intact r.
Proof.
  unfold parse, read_pattern.
  change ("^(.+)(" +:+ r0 +:+ "|" +:+ r1 +:+ ")$")
    with (String "^" (String "(" (String "." (String "+" (String ")"
            (String "(" (r0 +:+ String "|" (r1 +:+ ")$")))))))).
  set (tl := String "(" (r0 +:+ _)).
  cbn [parse_from]. change (repeat_last QPlus [RAtom AAny QOne])
    with (Ok [RAtom AAny QPlus]). cbn [mbind result_bind].
  apply parse_from_first_group_intact; [lia|done| |done].
  constructor; [|by constructor]. by split.
Qed.

(** A greedy repetition hands over at its starting position or later. *)
Lemma match_star_reach (R : captures → Prop) a pos s caps (k : cont) m :
  (∀ pos' s' m', pos ≤ pos' → k pos' s' caps = Some m' → R m') →
  match_star a pos s caps k = Some m → R m.
Proof.
  revert pos. induction s as [|c s IH]; intros pos Hk; simpl.
  - by apply Hk.
  - destruct (atom_matches a c); [|by apply Hk].
    destruct (match_star a (S pos) s caps k) as [m'|] eqn:Hstar.
    + intros [= <-]. apply (IH (S pos)); [|done].
      intros pos' s' m'' Hpos. apply Hk. lia.
    + by apply Hk.
Qed.

Lemma match_atom_keeps (R : captures → Prop) a q pos s caps (k : cont) m :
  (∀ pos' s' m', k pos' s' caps = Some m' → R m') →
  match_atom a q pos s caps k = Some m → R m.
Proof.
  intros Hk. destruct q, s as [|c s]; cbn [match_atom]; try done.
  - destruct (atom_matches a c); [by apply Hk|done].
  - apply match_star_reach. eauto.
  - apply match_star_reach. eauto.
  - destruct (atom_matches a c); [|done]. apply match_star_reach. eauto.
  - by apply Hk.
  - destruct (atom_matches a c); [|by apply Hk].
    destruct (k (S pos) s caps) as [m'|] eqn:Hm'; [|by apply Hk].
    intros [= <-]. by eapply Hk.
Qed.

Lemma substring_0_succ n c s : String.substring 0 (S n) (String c s) ≠ "".
Proof. done. Qed.

(** Matching an expression whose first group is [.+] never gives that group
    the empty text. *)
Lemma rmatch_first_group_nonempty r :
  first_group_intact r →
  ∀ pos s caps (k : cont) m,
    first_group_nonempty caps →
    (∀ pos' s' caps' m',
       first_group_nonempty caps' → k pos' s' caps' = Some m' →
       first_group_nonempty m') →
    rmatch r pos s caps k = Some m → first_group_nonempty m.
Proof.
  induction r as [|a q| | |i r IH|r1 IH1 r2 IH2|r1 IH1 r2 IH2];
    intros Hr pos s caps k m Hcaps Hk; cbn [rmatch].
  - by apply Hk.
  - apply match_atom_keeps. intros pos' s' m'. by apply Hk.
  - case_decide; [by apply Hk|done].
  - destruct (at_end s); [by apply Hk|done].
  - destruct Hr as [Hbody Hr]. destruct (decide (i = 1)) as [->|Hi].
    + rewrite (Hbody eq_refl). unfold first_group_body. cbn [seq_of rmatch].
      destruct s as [|c s]; [done|]. cbn [match_atom].
      destruct (atom_matches AAny c); [|done].
      apply match_star_reach. intros pos' s' m' Hpos. apply Hk.
      unfold first_group_nonempty. rewrite lookup_insert_eq.
      replace (pos' - pos) with (S (pos' - S pos)) by lia. by intros [=].
    + apply IH; [done..|]. intros pos' s' caps' m' Hcaps'. apply Hk.
      unfold first_group_nonempty. by rewrite lookup_insert_ne.
  - destruct Hr as [Hr1 Hr2]. apply IH1; [done..|].
    intros pos' s' caps' m' Hcaps'. by apply IH2.
  - destruct Hr as [Hr1 Hr2].
    destruct (rmatch r1 pos s caps k) as [m'|] eqn:Hm'.
    + intros [= <-]. by eapply IH1.
    + by apply IH2.
Qed.

Lemma bname_of_nonempty ext reads infile :
  bname_of ext reads infile ≠ Ok (Some (Some "")).
Proof.
  unfold bname_of, re_match.
  destruct (py_index reads 0) as [r0| |]; [|done..]. simpl.
  destruct (py_index reads 1) as [r1| |]; [|done..]. simpl.
  destruct (parse (read_pattern r0 r1)) as [r| |] eqn:Hr; [|done..]. simpl.
  destruct (rmatch r 0 _ ∅ _) as [m|] eqn:Hm; [|done].
  intros [= Hkey]. apply parse_read_pattern_first_group in Hr.
  apply (rmatch_first_group_nonempty r Hr) in Hm; [done| |].
  - unfold first_group_nonempty. by rewrite lookup_empty.
  - by intros ???? ? [= <-].
Qed.

Lemma group_files_no_empty_key (ext : string) (reads infiles : list string)
    (dic : pairing) :
  group_files infiles ext reads = Ok dic → dic !! Some "" = None.
Proof.
  intros Hdic.
  destruct (bname_of_uniform ext reads) as [Hok|[[e He]|Hnm]].
  - destruct (group_files_keyed ext reads infiles Hok) as (dic' & Hdic' & Hkey).
    assert (dic' = dic) as -> by congruence. rewrite Hkey.
    destruct (keyed_group ext reads infiles (Some "")) as [|f fs] eqn:Hg;
      [done|].
    assert (f ∈ keyed_group ext reads infiles (Some "")) as Hf
        by (rewrite Hg; left).
    apply list_elem_of_filter in Hf as [Hf _].
    by apply bname_of_nonempty in Hf.
  - destruct infiles as [|f fs]; [by injection Hdic as <-|].
    unfold group_files in Hdic. cbn [for_each] in Hdic.
    by rewrite record_infile_bname, He in Hdic.
  - destruct infiles as [|f fs]; [by injection Hdic as <-|].
    unfold group_files in Hdic. cbn [for_each] in Hdic.
    by rewrite record_infile_bname, Hnm in Hdic.
Qed.


